(** * Status Dashboard: the device-push client and the presence / reminder core

    Part I embeds [autoxjs_dashboard.js], the AutoX.js script that pushes the
    phone's foreground-app status to the dashboard.  Part II models the
    server-side core (wire format, presence tracker, recurrence evaluator,
    task store, reminder scheduler), whose code is not among the sources
    studied here.  Part III reads more off runs of the client and embeds the
    browser side: the page script [common.js] and the service worker
    [sw.js]. *)

From Stdlib Require Import ZArith Ascii String List Bool Lia.
From stdpp Require Import gmap strings sorting.

Local Open Scope Z_scope.

(** ** JavaScript values the script handles

    Strings are kept as their UTF-8 bytes; the patterns searched for (the
    secret, the empty string) are ASCII, so a bytewise search finds the
    occurrences JavaScript finds.  Times are the integers [Date.now()]
    returns, on which JavaScript's arithmetic is exact. *)

(** A statement either completes normally with a value or throws; the thrown
    value is kept as the text [`${e}`] renders it to. *)
Inductive completion (A : Type) : Type :=
| Normal (a : A)
| Throw (e : string).
Arguments Normal {A} a.
Arguments Throw {A} e.

(** The object literals handed to [http.postJson] hold strings and booleans. *)
Inductive jsvalue : Type :=
| JString (s : string)
| JBool (b : bool).

(** An object literal: its properties in the order they are written. *)
Definition json : Type := list (string * jsvalue).

(** [a !== b] on strings. *)
Definition strict_ne (a b : string) : bool := negb (String.eqb a b).

(** [String.prototype.startsWith]-like test used by [js_replace]. *)
Fixpoint starts_with (pat s : string) : bool :=
  match pat, s with
  | EmptyString, _ => true
  | String _ _, EmptyString => false
  | String a pat', String b s' => if Ascii.eqb a b then starts_with pat' s' else false
  end.

(** [s.substring(n)]. *)
Fixpoint string_drop (n : nat) (s : string) : string :=
  match n, s with
  | O, _ => s
  | S _, EmptyString => EmptyString
  | S n', String _ s' => string_drop n' s'
  end.

(** [s.replace(pat, rep)] with a string pattern: only the first (leftmost)
    occurrence of [pat] is replaced.  ([rep] is taken literally; the script's
    replacement text has no [$] in it.) *)
Fixpoint js_replace (s pat rep : string) : string :=
  if starts_with pat s then rep +:+ string_drop (String.length pat) s
  else match s with
       | EmptyString => EmptyString
       | String c s' => String c (js_replace s' pat rep)
       end.

(** [s.includes(pat)]. *)
Fixpoint js_includes (s pat : string) : bool :=
  if starts_with pat s then true
  else match s with
       | EmptyString => false
       | String _ s' => js_includes s' pat
       end.

(** [`${v}`] for a value that is a string or [null]. *)
Definition render_nullable (v : option string) : string :=
  match v with
  | Some s => s
  | None => "null"
  end.

(** [!v] for a value that is a string or [null]. *)
Definition falsy (v : option string) : bool :=
  match v with
  | Some s => String.eqb s ""
  | None => true
  end.

(** The wire format of an inbound presence push, [{secret, id, show_name,
    using: bool, app_name}]: an object with exactly these five properties,
    [using] a boolean. *)
Definition is_presence_push (p : json) : Prop :=
  exists (secret id show_name : string) (u : bool) (app_name : string),
    p = [ ("secret", JString secret); ("id", JString id);
          ("show_name", JString show_name); ("using", JBool u);
          ("app_name", JString app_name) ].

(** ** The device-push client, [autoxjs_dashboard.js] *)
Module Client.

(** *** Configuration *)
Definition API_URL : string := "https://status.wisteriazy.moe/device/set".
Definition SECRET : string := "erh3PVxATcxS9qHlVZkAXBf_TZ6f-HrcGwNPREOJ-bc".
Definition ID : string := "phone".
Definition SHOW_NAME : string := "手机".
Definition CHECK_INTERVAL : Z := 3000.
Definition HEARTBEAT_INTERVAL : Z := 10000.

(** *** What the script can observe and do *)

(** Everything observable the script does, in program order. *)
Inductive event : Type :=
| Console (line : string)            (* console.log(line) *)
| Post (url : string) (body : json)  (* http.postJson(url, body) was called *)
| Toast (msg : string)               (* toast(msg) *)
| Sleep (ms : Z).                    (* sleep(ms) *)

(** The two script-level variables. *)
Record state : Type := mkState {
  last_status : string;
  last_send_time : Z
}.

Definition initial_state : state :=
  {| last_status := ""; last_send_time := 0 |}.

(** The answers of the AutoX.js device API during one call of [check_status].
    [getBattery] is the text [`${battery}`] renders the reading to. *)
Record device_env : Type := mkDevice {
  isScreenOn : completion bool;
  currentPackage : completion string;
  getAppName : string -> completion (option string);
  getBattery : completion string;
  isCharging : completion bool
}.

(** What a call of [http.postJson] does: it throws, or it returns a response
    whose [body.string()] yields the text or throws in turn. *)
Inductive http_result : Type :=
| PostThrows (e : string)
| PostReturns (body_string : completion string).

(** The environment of one iteration of the polling loop: the device, the
    network and the two readings of [Date.now()] (in [send_status], and in
    [do_send] after the response has been logged). *)
Record tick_env : Type := mkTick {
  device : device_env;
  clock_now : Z;
  postJson : string -> json -> http_result;
  clock_sent : Z
}.

(** *** Computations: state, output and exceptions *)

Definition M (A : Type) : Type := state -> completion A * state * list event.

Definition ret {A} (a : A) : M A := fun st => (Normal a, st, []).

Definition bind {A B} (m : M A) (k : A -> M B) : M B :=
  fun st =>
    match m st with
    | (Normal a, st1, out1) =>
        match k a st1 with
        | (r, st2, out2) => (r, st2, out1 ++ out2)
        end
    | (Throw e, st1, out1) => (Throw e, st1, out1)
    end.

Notation "x <- m ;; k" := (bind m (fun x => k))
  (at level 100, m at level 99, right associativity).
Notation "m ;;; k" := (bind m (fun _ => k))
  (at level 100, right associativity).

(** [try { body } catch (e) { handler }]: assignments and output made before
    the exception stay. *)
Definition try_catch {A} (body : M A) (handler : string -> M A) : M A :=
  fun st =>
    match body st with
    | (Normal a, st1, out1) => (Normal a, st1, out1)
    | (Throw e, st1, out1) =>
        match handler e st1 with
        | (r, st2, out2) => (r, st2, out1 ++ out2)
        end
    end.

(** An API call whose outcome the environment fixes. *)
Definition call {A} (r : completion A) : M A := fun st => (r, st, []).

Definition emit (ev : event) : M unit := fun st => (Normal tt, st, [ev]).

Definition get_last_status : M string := fun st => (Normal (last_status st), st, []).
Definition get_last_send_time : M Z := fun st => (Normal (last_send_time st), st, []).

Definition set_last_status (s : string) : M unit :=
  fun st => (Normal tt, {| last_status := s; last_send_time := last_send_time st |}, []).
Definition set_last_send_time (t : Z) : M unit :=
  fun st => (Normal tt, {| last_status := last_status st; last_send_time := t |}, []).

Definition result_of {A} (x : completion A * state * list event) : completion A := fst (fst x).
Definition state_of {A} (x : completion A * state * list event) : state := snd (fst x).
Definition output_of {A} (x : completion A * state * list event) : list event := snd x.

(** *** The script *)

Definition console_log (line : string) : M unit := emit (Console line).

(** The line [log(msg)] prints in its [try] branch. *)
Definition log_line (msg : string) : string :=
  "[dashboard] " +:+ js_replace msg SECRET "[SECRET]".

(** [log]: every caller passes a string, on which [replace] cannot throw; the
    [catch] branch prints the message as it is. *)
Definition log (msg : string) : M unit :=
  try_catch (console_log (log_line msg))
            (fun _ => console_log ("[dashboard] " +:+ msg)).

Definition check_status (d : device_env) : M string :=
  on <- call (isScreenOn d) ;;
  if negb on then ret ""
  else
    app_package <- call (currentPackage d) ;;
    app_name <- call (getAppName d app_package) ;;
    battery <- call (getBattery d) ;;
    charging <- call (isCharging d) ;;
    let retname :=
      if charging
      then "[" +:+ battery +:+ "% +] " +:+ render_nullable app_name
      else "[" +:+ battery +:+ "%] " +:+ render_nullable app_name in
    let retname := if falsy app_name then "" else retname in
    ret retname.

(** The object literal both [do_send] and the exit handler post. *)
Definition payload (using_ : bool) (app_name : string) : json :=
  [ ("secret", JString SECRET);
    ("id", JString ID);
    ("show_name", JString SHOW_NAME);
    ("using", JBool using_);
    ("app_name", JString app_name) ].

(** [http.postJson(url, body)]: the call is observable, then the environment
    decides whether it throws. *)
Definition http_postJson (post : string -> json -> http_result)
    (url : string) (body : json) : M (completion string) :=
  emit (Post url body) ;;;
  match post url body with
  | PostThrows e => call (Throw e)
  | PostReturns r => ret r
  end.

Definition do_send (w : tick_env) (app_name : string) : M unit :=
  let using_ := strict_ne app_name "" in
  log ("POST " +:+ API_URL) ;;;
  try_catch
    (r <- http_postJson (postJson w) API_URL (payload using_ app_name) ;;
     body <- call r ;;
     log ("response: " +:+ body) ;;;
     set_last_send_time (clock_sent w))
    (fun e => log ("ERROR: " +:+ e)).

Definition send_status (w : tick_env) : M unit :=
  app_name <- check_status (device w) ;;
  let now := clock_now w in
  last <- get_last_status ;;
  if strict_ne app_name last then
    log ("status changed: '" +:+ app_name +:+ "'") ;;;
    set_last_status app_name ;;;
    do_send w app_name
  else
    sent <- get_last_send_time ;;
    if HEARTBEAT_INTERVAL <=? now - sent then
      log ("heartbeat: '" +:+ app_name +:+ "'") ;;;
      do_send w app_name
    else
      log "same status, waiting for heartbeat".

(** The handler registered with [events.on("exit", ...)]. *)
Definition on_exit (post : string -> json -> http_result) : M unit :=
  log "Script exit, reporting offline" ;;;
  emit (Toast "[dashboard] 脚本停止") ;;;
  try_catch
    (_ <- http_postJson post API_URL (payload false "") ;; ret tt)
    (fun e => log ("Exit report error: " +:+ e)).

(** One iteration of [while (true) { try { send_status() } catch ... ; sleep }]. *)
Definition loop_body (w : tick_env) : M unit :=
  try_catch (send_status w) (fun e => log ("ERROR: " +:+ e)) ;;;
  emit (Sleep CHECK_INTERVAL).

(** The polling loop [while (true) { ... }], over the environments of its
    first iterations (it is entered once [auto.waitFor()] has returned). *)
Fixpoint main_loop (ws : list tick_env) : M unit :=
  match ws with
  | [] => ret tt
  | w :: ws' => loop_body w ;;; main_loop ws'
  end.

(** A whole run: the loop until the script is stopped, then the exit handler. *)
Definition script (ws : list tick_env) (exit_post : string -> json -> http_result) : M unit :=
  main_loop ws ;;; on_exit exit_post.

(** *** Reading a run *)

(** The bodies posted, in order. *)
Fixpoint pushes_of (out : list event) : list json :=
  match out with
  | [] => []
  | Post _ body :: out' => body :: pushes_of out'
  | _ :: out' => pushes_of out'
  end.

Fixpoint console_of (out : list event) : list string :=
  match out with
  | [] => []
  | Console l :: out' => l :: console_of out'
  | _ :: out' => console_of out'
  end.

Fixpoint sleeps_of (out : list event) : list Z :=
  match out with
  | [] => []
  | Sleep ms :: out' => ms :: sleeps_of out'
  | _ :: out' => sleeps_of out'
  end.

(** The [using] and [app_name] properties of a posted body. *)
Fixpoint field (k : string) (o : json) : option jsvalue :=
  match o with
  | [] => None
  | (k', v) :: o' => if String.eqb k k' then Some v else field k o'
  end.


(** What [check_status] returns (or throws) on a device. *)
Definition status_reading (d : device_env) : completion string :=
  result_of (check_status d initial_state).

(** The send condition of [send_status]: the status changed, or the heartbeat
    interval has passed since [last_send_time]. *)
Definition send_due (st : state) (now : Z) (app_name : string) : bool :=
  strict_ne app_name (last_status st) || (HEARTBEAT_INTERVAL <=? now - last_send_time st).

(** The [try] block of [do_send] ran to its end: the post returned and the
    response body was read. *)
Definition acknowledged (w : tick_env) (p : json) : bool :=
  match postJson w API_URL p with
  | PostReturns (Normal _) => true
  | _ => false
  end.

(** The push attempts of the loop, each with the iteration it was made in. *)
Fixpoint attempts (ws : list tick_env) (st : state) : list (tick_env * json) :=
  match ws with
  | [] => []
  | w :: ws' =>
      map (fun p => (w, p)) (pushes_of (output_of (loop_body w st)))
        ++ attempts ws' (state_of (loop_body w st))
  end.

(** The values of the two variables after the iterations [ws]. *)
Fixpoint state_after (ws : list tick_env) (st : state) : state :=
  match ws with
  | [] => st
  | w :: ws' => state_after ws' (state_of (loop_body w st))
  end.

(** Summary of [do_send]: the state it leaves and the message it logs last,
    by what the network does ([do_send_eq] below relates them to [do_send]). *)
Definition do_send_state (w : tick_env) (app_name : string) (st : state) : state :=
  if acknowledged w (payload (strict_ne app_name "") app_name)
  then {| last_status := last_status st; last_send_time := clock_sent w |}
  else st.

Definition do_send_report (w : tick_env) (app_name : string) : string :=
  match postJson w API_URL (payload (strict_ne app_name "") app_name) with
  | PostReturns (Normal body) => "response: " +:+ body
  | PostReturns (Throw e) => "ERROR: " +:+ e
  | PostThrows e => "ERROR: " +:+ e
  end.

(** Summary of one iteration ([loop_body_pushes] and [loop_body_state] below
    relate them to [loop_body]). *)
Definition tick_pushes (w : tick_env) (st : state) : list json :=
  match status_reading (device w) with
  | Normal s => if send_due st (clock_now w) s then [payload (strict_ne s "") s] else []
  | Throw _ => []
  end.

Definition tick_state (w : tick_env) (st : state) : state :=
  match status_reading (device w) with
  | Normal s =>
      if strict_ne s (last_status st)
      then do_send_state w s {| last_status := s; last_send_time := last_send_time st |}
      else if HEARTBEAT_INTERVAL <=? clock_now w - last_send_time st
           then do_send_state w s st
           else st
  | Throw _ => st
  end.

End Client.

(** *** Concrete environments, used to run the script *)
Module Scenario.
Import Client.

Definition phone_in_use : device_env :=
  {| isScreenOn := Normal true;
     currentPackage := Normal "com.android.chrome";
     getAppName := fun _ => Normal (Some "Chrome");
     getBattery := Normal "85";
     isCharging := Normal false |}.

Definition screen_off : device_env :=
  {| isScreenOn := Normal false;
     currentPackage := Normal "com.android.systemui";
     getAppName := fun _ => Normal (Some "System UI");
     getBattery := Normal "85";
     isCharging := Normal true |}.

Definition service_lost : device_env :=
  {| isScreenOn := Normal true;
     currentPackage := Throw "Error: accessibility service is not running";
     getAppName := fun _ => Normal None;
     getBattery := Normal "85";
     isCharging := Normal false |}.

Definition server_ok : string -> json -> http_result :=
  fun _ _ => PostReturns (Normal "{}").

Definition network_down : string -> json -> http_result :=
  fun _ _ => PostThrows "java.net.UnknownHostException: status.wisteriazy.moe".

Definition body_unreadable : string -> json -> http_result :=
  fun _ _ => PostReturns (Throw "java.io.IOException: unexpected end of stream").

(** A server that answers with the secret it received, twice. *)
Definition echo_twice : string -> json -> http_result :=
  fun _ body =>
    match field "secret" body with
    | Some (JString secret) => PostReturns (Normal (secret +:+ " " +:+ secret))
    | _ => PostReturns (Normal "")
    end.

Definition tick (d : device_env) (now : Z) (post : string -> json -> http_result) : tick_env :=
  {| device := d; clock_now := now; postJson := post; clock_sent := now + 120 |}.

Definition t0 : Z := 1700000000000.

End Scenario.

(** * Part II: the server-side core, modelled from the specification

    The backend ([backend/mobile_device.py], [backend/local_todo.py]) is not
    among the sources under study; its presence tracker, recurrence
    evaluator, task store and reminder scheduler are modelled here from the
    specification's words. *)

(** ** Presence tracker *)
Module Presence.

(** Modelled from the spec: the liveness state of a device (chapter 4.5,
    [Unknown -> Online <-> Offline]); the tracker's code is not among the
    sources. *)
Inductive PresenceState : Type := Unknown | Online | Offline.

(** Modelled from the spec: the Device Presence Record of chapter 3,
    [{device_id, show_name, using, app_name, last_seen}]. *)
Record DevicePresenceRecord : Type := mkRecord {
  device_id : string;
  show_name : string;
  using_ : bool;
  app_name : string;
  last_seen : Z
}.

(** Modelled from the spec: an inbound push [{device_id, using, app_name,
    show_name}], after the caller has checked the secret. *)
Record Push : Type := mkPush {
  push_device_id : string;
  push_show_name : string;
  push_using : bool;
  push_app_name : string
}.

(** Modelled from the spec: what the tracker keeps per device, the record
    and the state the watchdog derived last. *)
Record Entry : Type := mkEntry {
  record : DevicePresenceRecord;
  presence : PresenceState
}.

(** Modelled from the spec: an inbound push received at [now] sets
    [last_seen] unconditionally, changes [app_name] and [using] only where
    they differ from the stored record, and puts the device [Online]. *)
Definition inbound_push (now : Z) (p : Push) (m : gmap string Entry) : gmap string Entry :=
  let r :=
    match m !! push_device_id p with
    | Some e =>
        {| device_id := push_device_id p;
           show_name := push_show_name p;
           using_ := if Bool.eqb (using_ (record e)) (push_using p)
                     then using_ (record e) else push_using p;
           app_name := if String.eqb (app_name (record e)) (push_app_name p)
                       then app_name (record e) else push_app_name p;
           last_seen := now |}
    | None =>
        {| device_id := push_device_id p;
           show_name := push_show_name p;
           using_ := push_using p;
           app_name := push_app_name p;
           last_seen := now |}
    end in
  <[push_device_id p := {| record := r; presence := Online |}]> m.

(** Modelled from the spec: one device under the watchdog, [Online ->
    Offline] when [now - last_seen > timeout_seconds]. *)
Definition watchdog_check (timeout_seconds now : Z) (e : Entry) : Entry :=
  if timeout_seconds <? now - last_seen (record e)
  then {| record := record e; presence := Offline |}
  else e.

(** Modelled from the spec: the periodic watchdog sweep over all devices. *)
Definition watchdog_sweep (timeout_seconds now : Z) (m : gmap string Entry) : gmap string Entry :=
  watchdog_check timeout_seconds now <$> m.

(** Modelled from the spec: the state reported for a device; a device that
    never pushed is [Unknown]. *)
Definition report (m : gmap string Entry) (dev : string) : PresenceState :=
  match m !! dev with
  | Some e => presence e
  | None => Unknown
  end.

(** Modelled from the spec: the default of [timeout_seconds] (chapter 4.5),
    which the backend reads from its configuration. *)
Definition default_timeout_seconds : Z := 60.

(** Modelled from the spec: what reaches the tracker, an inbound push or a
    sweep of the watchdog. *)
Inductive Input : Type :=
| Pushed (p : Push)
| Swept.

(** Modelled from the spec: the tracker's reaction to one input at [now]. *)
Definition tracker_step (timeout_seconds now : Z) (i : Input) (m : gmap string Entry)
    : gmap string Entry :=
  match i with
  | Pushed p => inbound_push now p m
  | Swept => watchdog_sweep timeout_seconds now m
  end.

(** Modelled from the spec: the tracker from its start (all devices
    [Unknown]) at [now]; each input arrives some seconds after the previous
    one.  The result is the map and the time of the last input. *)
Fixpoint tracker_run (timeout_seconds now : Z) (inputs : list (N * Input))
    (m : gmap string Entry) : gmap string Entry * Z :=
  match inputs with
  | [] => (m, now)
  | (gap, i) :: inputs' =>
      tracker_run timeout_seconds (now + Z.of_N gap) inputs'
        (tracker_step timeout_seconds (now + Z.of_N gap) i m)
  end.

(** Invariant of the tracker's map at time [now]: a device marked [Offline]
    has been silent for longer than the timeout, and no stored device is
    [Unknown]. *)
Definition consistent (timeout_seconds now : Z) (m : gmap string Entry) : Prop :=
  forall dev e, m !! dev = Some e ->
    presence e <> Unknown /\
    (presence e = Offline -> timeout_seconds < now - last_seen (record e)).

End Presence.

(** ** Recurrence rules, task store and reminder scheduler *)
Module Reminder.

(** *** Calendar *)

(** Modelled from the spec: a calendar day in the configured local time
    zone; [weekday] is 1 (Monday) to 7 (Sunday), as in the wire encoding of
    weekly rules. *)
Record Date : Type := mkDate {
  year : Z;
  month : Z;
  day : Z;
  weekday : Z
}.

(** Modelled from the spec: the Gregorian calendar the day-of-month of a
    Monthly rule is matched against (leap years, lengths of the months, the
    day after a day). *)
Definition is_leap (y : Z) : bool :=
  (y mod 4 =? 0) && (negb (y mod 100 =? 0) || (y mod 400 =? 0)).

Definition days_in_month (y m : Z) : Z :=
  if m =? 2 then (if is_leap y then 29 else 28)
  else if (m =? 4) || (m =? 6) || (m =? 9) || (m =? 11) then 30
  else 31.

Definition next_day (d : Date) : Date :=
  let wd := if weekday d =? 7 then 1 else weekday d + 1 in
  if day d <? days_in_month (year d) (month d)
  then {| year := year d; month := month d; day := day d + 1; weekday := wd |}
  else if month d <? 12
       then {| year := year d; month := month d + 1; day := 1; weekday := wd |}
       else {| year := year d + 1; month := 1; day := 1; weekday := wd |}.

(** Modelled from the spec: the instants of the evaluator are local
    wall-clock seconds, counted here from 1970-01-01T00:00, a Thursday
    (changes of the zone offset are left out). *)
Definition epoch : Date := {| year := 1970; month := 1; day := 1; weekday := 4 |}.

Definition date_of_day (n : nat) : Date := Nat.iter n next_day epoch.

(** Modelled from the spec: occurrences are scheduled on the hour, so an
    instant is located by the hour it falls in, counted from the epoch, and
    that hour by its calendar day and its hour of the day. *)
Definition hour_index (t : Z) : Z := t / 3600.
Definition date_at (h : Z) : Date := date_of_day (Z.to_nat (h / 24)).
Definition hour_of_day (h : Z) : Z := h mod 24.

(** *** Recurrence evaluator *)

(** Modelled from the spec: the four recurrence rules of chapter 3, with
    the fields of their wire encoding ([at_] in local seconds). *)
Inductive Rule : Type :=
| Once (at_ : Z)
| Daily (hours : list Z)
| Weekly (weekdays : list Z) (hour : Z)
| Monthly (days : list Z) (hour : Z).

(** Modelled from the spec: the identity of an occurrence, derivable from
    its scheduled instant alone: the (date, hour) it falls on, kept as the
    index of that hour since the epoch ([date_at], [hour_of_day] give the
    pair back). *)
Definition OccurrenceIdentity : Type := Z.

(** Membership in the list that encodes a set of hours, weekdays or days. *)
Definition mem (x : Z) (l : list Z) : bool := existsb (Z.eqb x) l.

(** Modelled from the spec: whether a recurring rule schedules an occurrence
    at the start of hour [h]: one per listed hour every day, per listed
    weekday every week, per listed day of the month every month.  A month
    has an occurrence on day [d] only if the calendar has such a day. *)
Definition occurs_at (r : Rule) (h : Z) : bool :=
  match r with
  | Once _ => false
  | Daily hours => mem (hour_of_day h) hours
  | Weekly weekdays hour => mem (weekday (date_at h)) weekdays && (hour_of_day h =? hour)
  | Monthly days hour => mem (day (date_at h)) days && (hour_of_day h =? hour)
  end.

(** Modelled from the spec: "the most recent occurrence", the latest hour
    [x <= h] with [P x] among the [fuel] hours up to [h]. *)
Fixpoint latest (P : Z -> bool) (fuel : nat) (h : Z) : option Z :=
  match fuel with
  | O => None
  | S fuel' => if P h then Some h else latest P fuel' (h - 1)
  end.

(** Modelled from the spec: how far back the evaluator looks, 62 days,
    longer than the longest gap between two occurrences of a rule that lists
    valid days (day 31 recurs after 61 days at most). *)
Definition lookback : nat := 62 * 24.

(** Modelled from the spec: [is_due(rule, now)], the identity of the most
    recent occurrence whose scheduled instant is [<= now], if any. *)
Definition is_due (r : Rule) (now : Z) : option OccurrenceIdentity :=
  match r with
  | Once at_ => if at_ <=? now then Some (hour_index at_) else None
  | _ => latest (occurs_at r) lookback (hour_index now)
  end.

(** *** Task store *)






(** *** Reminder scheduler *)













(** Seconds since the epoch of [h]:00 on the [n]-th day after it. *)
Definition local_time (n h : Z) : Z := (n * 24 + h) * 3600.



(** A well-formed date. *)
Definition valid_date (d : Date) : Prop :=
  1 <= month d <= 12 /\ 1 <= day d <= days_in_month (year d) (month d) /\
  1 <= weekday d <= 7.

End Reminder.

(** *** Concrete tasks and devices, used to run the model *)
Module Examples.
Import Presence Reminder.





(** Sunday 1970-03-01, 10:00:00. *)
Definition first_of_march : Z := local_time 59 10.

Definition phone_push : Push :=
  {| push_device_id := "phone"; push_show_name := "Phone";
     push_using := true; push_app_name := "[85%] Chrome" |}.

End Examples.

(** * Part III: more of the client, and the browser side *)

(** ** Readings of a run of the client *)
Module ClientRun.
Import Client.

(** [s.slice(s.indexOf(pat) + pat.length)], the text after the first
    occurrence of [pat]; empty when [pat] does not occur. *)
Fixpoint after_first (s pat : string) : string :=
  if starts_with pat s then string_drop (String.length pat) s
  else match s with
       | EmptyString => EmptyString
       | String _ s' => after_first s' pat
       end.

(** Whether the character [c] occurs in [s]. *)
Fixpoint has_char (c : Ascii.ascii) (s : string) : bool :=
  match s with
  | EmptyString => false
  | String x s' => Ascii.eqb x c || has_char c s'
  end.

(** The status [check_status] returned last in the iterations [ws];
    [default] when it returned in none of them. *)
Fixpoint last_reading (ws : list tick_env) (default : string) : string :=
  match ws with
  | [] => default
  | w :: ws' =>
      match status_reading (device w) with
      | Normal s => last_reading ws' s
      | Throw _ => last_reading ws' default
      end
  end.

(** The time recorded by the last acknowledged attempt among [l]; [default]
    when none was acknowledged. *)
Fixpoint last_acknowledged (l : list (tick_env * json)) (default : Z) : Z :=
  match l with
  | [] => default
  | (w, p) :: l' =>
      last_acknowledged l' (if acknowledged w p then clock_sent w else default)
  end.

End ClientRun.

(** ** Computations with state, output and exceptions, for the browser code *)
Module Eff.

Section Eff.
Context {S E : Type}.

Definition eff (A : Type) : Type := S -> completion A * S * list E.

Definition ret {A} (a : A) : eff A := fun st => (Normal a, st, []).

Definition throw {A} (e : string) : eff A := fun st => (Throw e, st, []).

Definition bind {A B} (m : eff A) (k : A -> eff B) : eff B :=
  fun st =>
    match m st with
    | (Normal a, st1, out1) =>
        match k a st1 with
        | (r, st2, out2) => (r, st2, out1 ++ out2)
        end
    | (Throw e, st1, out1) => (Throw e, st1, out1)
    end.

(** [try { body } catch (e) { handler }]. *)
Definition try_catch {A} (body : eff A) (handler : string -> eff A) : eff A :=
  fun st =>
    match body st with
    | (Normal a, st1, out1) => (Normal a, st1, out1)
    | (Throw e, st1, out1) =>
        match handler e st1 with
        | (r, st2, out2) => (r, st2, out1 ++ out2)
        end
    end.

(** [try { body } finally { cleanup }]: the cleanup always runs; the body's
    completion stands unless the cleanup throws. *)
Definition try_finally {A} (body : eff A) (cleanup : eff unit) : eff A :=
  fun st =>
    match body st with
    | (r, st1, out1) =>
        match cleanup st1 with
        | (Normal _, st2, out2) => (r, st2, out1 ++ out2)
        | (Throw e, st2, out2) => (Throw e, st2, out1 ++ out2)
        end
    end.

(** A call whose outcome the environment fixes. *)
Definition call {A} (r : completion A) : eff A := fun st => (r, st, []).

Definition emit (ev : E) : eff unit := fun st => (Normal tt, st, [ev]).

Definition get : eff S := fun st => (Normal st, st, []).

Definition put (st' : S) : eff unit := fun _ => (Normal tt, st', []).

(** A promise nobody awaits: a rejection is lost. *)
Definition detached (m : eff unit) : eff unit :=
  fun st =>
    match m st with
    | (_, st1, out1) => (Normal tt, st1, out1)
    end.

End Eff.

Definition result_of {S E A} (x : completion A * S * list E) : completion A := fst (fst x).
Definition state_of {S E A} (x : completion A * S * list E) : S := snd (fst x).
Definition output_of {S E A} (x : completion A * S * list E) : list E := snd x.

End Eff.

(** ** The page script, [common.js] *)
Module Browser.
Import Eff.

Notation "x <- m ;; k" := (bind m (fun x => k))
  (at level 100, m at level 99, right associativity).
Notation "m ;;; k" := (bind m (fun _ => k))
  (at level 100, right associativity).

(** *** Values *)

(** What [res.json()] can yield.  Of a number the script only asks whether
    it is truthy. *)
#[warnings="-register-all"]
Inductive jsdata : Type :=
| DUndefined
| DNull
| DBool (b : bool)
| DNumber (is_zero : bool)
| DString (s : string)
| DArray (items : list jsdata)
| DObject (props : list (string * jsdata)).

(** [ToBoolean(v)]. *)
Definition truthy (v : jsdata) : bool :=
  match v with
  | DUndefined | DNull => false
  | DBool b => b
  | DNumber is_zero => negb is_zero
  | DString s => negb (String.eqb s "")
  | DArray _ | DObject _ => true
  end.

Fixpoint own_prop (k : string) (props : list (string * jsdata)) : jsdata :=
  match props with
  | [] => DUndefined
  | (k', v) :: props' => if String.eqb k k' then v else own_prop k props'
  end.

Definition type_error : string := "TypeError".

(** [v.k] for the property names the script reads, [authenticated] and
    [detail], which no prototype defines: a [TypeError] on [null] and
    [undefined], the own property of an object, [undefined] otherwise. *)
Definition get_prop (v : jsdata) (k : string) : completion jsdata :=
  match v with
  | DUndefined | DNull => Throw type_error
  | DObject props => Normal (own_prop k props)
  | _ => Normal DUndefined
  end.

(** [a || b]. *)
Definition js_or (a b : jsdata) : jsdata := if truthy a then a else b.

(** The code units [String.prototype.trim] strips: WhiteSpace and
    LineTerminator. *)
Definition is_space (c : N) : bool :=
  existsb (N.eqb c)
    [9; 10; 11; 12; 13; 32; 160; 5760; 8232; 8233; 8239; 8287; 12288; 65279]%N
  || ((8192 <=? c) && (c <=? 8202))%N.

Fixpoint trim_start (s : list N) : list N :=
  match s with
  | [] => []
  | c :: s' => if is_space c then trim_start s' else s
  end.

(** [s.trim()], on the UTF-16 code units of [s]. *)
Definition trim (s : list N) : list N := rev (trim_start (rev (trim_start s))).

Definition is_digit (c : N) : bool := ((48 <=? c) && (c <=? 57))%N.

(** [/^\d{6}$/.test(s)]. *)
Definition six_digits (s : list N) : bool :=
  (length s =? 6)%nat && forallb is_digit s.

(** *** The page and its environment *)

Record page_el : Type := mkPage { display : string }.
Record input_el : Type := mkInput { value : list N }.
(** [error_text] is the value last assigned to [textContent] (the page shows
    its string conversion), [error_hidden] whether [classList] holds
    ['hidden']. *)
Record error_el : Type := mkError { error_text : jsdata; error_hidden : bool }.
Record button_el : Type := mkButton { disabled : bool; button_text : string }.

(** The five elements the script looks up by id, each present or not. *)
Record dom : Type := mkDom {
  login_page : option page_el;
  main_page : option page_el;
  totp_code : option input_el;
  login_error : option error_el;
  login_btn : option button_el
}.

Inductive request_init : Type :=
| Get
| PostJson (body : list (string * list N)).

Inductive bevent : Type :=
| Fetched (url : string) (init : request_init)  (* fetch(url, init) *)
| Focused (id : string)                         (* element.focus() *)
| CalledOnAuthenticated                         (* onAuthenticated() *)
| Registered (script : string)                  (* serviceWorker.register(script) *)
| Logged (args : list string).                  (* console.log(...args) *)

Record response : Type := mkResponse {
  status : Z;
  json_body : completion jsdata
}.

(** [res.ok]. *)
Definition ok (r : response) : bool := (200 <=? status r) && (status r <=? 299).

Inductive fetch_result : Type :=
| Rejects (e : string)
| Resolves (r : response).

(** What surrounds the script: the network, the page's own
    [onAuthenticated] ([None] when it is not a function), and the
    browser's service-worker support ([None] when there is none). *)
Record env : Type := mkEnv {
  fetch : string -> request_init -> fetch_result;
  onAuthenticated : option (completion unit);
  serviceWorker : option (completion unit)
}.

Definition M (A : Type) : Type := @eff dom bevent A.

(** *** Element accesses *)

(** [document.getElementById(id).<property>] throws on a missing element. *)
Definition element {A} (sel : dom -> option A) : M A :=
  d <- get ;;
  match sel d with
  | Some e => ret e
  | None => throw type_error
  end.

Definition set_login_display (v : string) : M unit :=
  _ <- element login_page ;;
  d <- get ;;
  put {| login_page := Some {| display := v |}; main_page := main_page d;
         totp_code := totp_code d; login_error := login_error d; login_btn := login_btn d |}.

Definition set_main_display (v : string) : M unit :=
  _ <- element main_page ;;
  d <- get ;;
  put {| login_page := login_page d; main_page := Some {| display := v |};
         totp_code := totp_code d; login_error := login_error d; login_btn := login_btn d |}.

Definition update_error (f : error_el -> error_el) : M unit :=
  e <- element login_error ;;
  d <- get ;;
  put {| login_page := login_page d; main_page := main_page d;
         totp_code := totp_code d; login_error := Some (f e); login_btn := login_btn d |}.

Definition update_button (f : button_el -> button_el) : M unit :=
  b <- element login_btn ;;
  d <- get ;;
  put {| login_page := login_page d; main_page := main_page d;
         totp_code := totp_code d; login_error := login_error d; login_btn := Some (f b) |}.

(** [errorEl.textContent = v]. *)
Definition set_error_text (v : jsdata) : M unit :=
  update_error (fun e => {| error_text := v; error_hidden := error_hidden e |}).

(** [errorEl.classList.remove('hidden')] and [.add('hidden')]. *)
Definition show_error : M unit :=
  update_error (fun e => {| error_text := error_text e; error_hidden := false |}).
Definition hide_error : M unit :=
  update_error (fun e => {| error_text := error_text e; error_hidden := true |}).

Definition set_button_disabled (b : bool) : M unit :=
  update_button (fun e => {| disabled := b; button_text := button_text e |}).
Definition set_button_text (s : string) : M unit :=
  update_button (fun e => {| disabled := disabled e; button_text := s |}).

Definition do_fetch (w : env) (url : string) (init : request_init) : M response :=
  emit (Fetched url init) ;;;
  match fetch w url init with
  | Rejects e => throw e
  | Resolves r => ret r
  end.

(** [if (typeof onAuthenticated === 'function') onAuthenticated();] *)
Definition call_onAuthenticated (w : env) : M unit :=
  match onAuthenticated w with
  | Some r => emit CalledOnAuthenticated ;;; call r
  | None => ret tt
  end.

(** *** The script *)

(** The registration at the top of the file. *)
Definition register_service_worker (w : env) : M unit :=
  match serviceWorker w with
  | None => ret tt
  | Some r =>
      emit (Registered "/static/sw.js") ;;;
      match r with
      | Normal _ => emit (Logged ["[SW] 注册成功"])
      | Throw e => emit (Logged ["[SW] 注册失败"; e])
      end
  end.

Definition checkAuth (w : env) : M jsdata :=
  try_catch
    (res <- do_fetch w "/api/auth/status" Get ;;
     data <- call (json_body res) ;;
     call (get_prop data "authenticated"))
    (fun _ => ret (DBool false)).

Definition focus_code_input : M unit :=
  d <- get ;;
  match totp_code d with
  | Some _ => emit (Focused "totp-code")
  | None => ret tt
  end.

Definition showLoginPage : M unit :=
  set_login_display "flex" ;;;
  set_main_display "none" ;;;
  focus_code_input.

Definition showMainPage : M unit :=
  set_login_display "none" ;;;
  set_main_display "block".

Definition submitTotp (w : env) : M unit :=
  input <- element totp_code ;;
  let code := trim (value input) in
  if negb (six_digits code) then
    set_error_text (DString "请输入 6 位数字验证码") ;;;
    show_error
  else
    set_button_disabled true ;;;
    set_button_text "验证中..." ;;;
    hide_error ;;;
    try_finally
      (try_catch
         (res <- do_fetch w "/api/auth/verify" (PostJson [("code", code)]) ;;
          if ok res then
            showMainPage ;;;
            call_onAuthenticated w
          else
            data <- call (json_body res) ;;
            detail <- call (get_prop data "detail") ;;
            set_error_text (js_or detail (DString "验证失败")) ;;;
            show_error)
         (fun _ =>
            set_error_text (DString "网络错误") ;;;
            show_error))
      (set_button_disabled false ;;;
       set_button_text "验证").

Definition initApp (w : env) : M unit :=
  authenticated <- checkAuth w ;;
  if truthy authenticated then
    showMainPage ;;;
    call_onAuthenticated w
  else
    showLoginPage.

Definition handleUnauthorized (res : response) : M bool :=
  if status res =? 401 then
    showLoginPage ;;;
    ret true
  else
    ret false.

(** The [keypress] listener that the [DOMContentLoaded] handler puts on the
    code input: Enter submits; the promise of [submitTotp] is not awaited. *)
Definition on_keypress (w : env) (key : string) : M unit :=
  if String.eqb key "Enter" then detached (submitTotp w) else ret tt.

(** *** Reading a run *)

Fixpoint fetches_of (out : list bevent) : list (string * request_init) :=
  match out with
  | [] => []
  | Fetched url init :: out' => (url, init) :: fetches_of out'
  | _ :: out' => fetches_of out'
  end.

(** A page with all five elements, as the login page has them at load. *)
Definition complete (d : dom) : Prop :=
  is_Some (login_page d) /\ is_Some (main_page d) /\ is_Some (totp_code d) /\
  is_Some (login_error d) /\ is_Some (login_btn d).

End Browser.

(** ** The service worker, [sw.js] *)
Module ServiceWorker.

Definition CACHE_NAME : string := "dashboard-v1".

Definition STATIC_ASSETS : list string :=
  [ "/";
    "/static/common.js";
    "/static/common.css";
    "/static/tasks.html";
    "/static/stats.html";
    "/static/manifest.json" ].

(** *** Requests, responses and the cache storage *)

(** A request, by its method and its absolute URL. *)
Record request : Type := mkRequest {
  method : string;
  url : string
}.

(** A response: [vary_any] says that its [Vary] header holds [*]. *)
Record response : Type := mkResponse {
  status : Z;
  vary_any : bool;
  body : string
}.

(** [response.ok]. *)
Definition ok (r : response) : bool := (200 <=? status r) && (status r <=? 299).

(** What the worker's URL handling rests on: [pathname_of u] is
    [new URL(u).pathname], [is_http u] whether the scheme of [u] is http or
    https, [origin] the origin the worker's relative URLs resolve against. *)
Record location : Type := mkLocation {
  pathname_of : string -> string;
  is_http : string -> bool;
  origin : string
}.

(** A cache maps request URLs to responses; the storage keeps its named
    caches in the order they were created.  (Requests are told apart by
    method and URL; matching on request headers named by a [Vary] header is
    left to the browser.) *)
Definition storage : Type := list (string * gmap string response).

(** [caches.keys()]. *)
Definition caches_keys (st : storage) : list string := map fst st.

Fixpoint find_cache (name : string) (st : storage) : option (gmap string response) :=
  match st with
  | [] => None
  | (n, c) :: st' => if String.eqb n name then Some c else find_cache name st'
  end.

(** [caches.open(name)] creates the cache when there is none of that name. *)
Definition caches_open (name : string) (st : storage) : storage :=
  match find_cache name st with
  | Some _ => st
  | None => st ++ [(name, ∅)]
  end.

(** [caches.delete(name)]. *)
Definition caches_delete (name : string) (st : storage) : storage :=
  List.filter (fun nc => negb (String.eqb (fst nc) name)) st.

(** [cache.put] and [cache.addAll] reject a request that is not a GET over
    http(s), a 206 response and a response that varies on everything. *)
Definition storable (loc : location) (req : request) (r : response) : bool :=
  String.eqb (method req) "GET" && is_http loc (url req)
  && negb (status r =? 206) && negb (vary_any r).

Fixpoint put_in (name : string) (u : string) (r : response) (st : storage) : storage :=
  match st with
  | [] => []
  | (n, c) :: st' =>
      if String.eqb n name then (n, <[u := r]> c) :: st'
      else (n, c) :: put_in name u r st'
  end.

(** [caches.open(name).then(cache => cache.put(req, r))], once settled. *)
Definition open_and_put (loc : location) (name : string) (req : request) (r : response)
    (st : storage) : storage :=
  let st1 := caches_open name st in
  if storable loc req r then put_in name (url req) r st1 else st1.

(** [caches.match(req)]: the entry of the first cache, in creation order,
    that has one; nothing for a request that is not a GET. *)
Fixpoint first_match (u : string) (st : storage) : option response :=
  match st with
  | [] => None
  | (_, c) :: st' =>
      match c !! u with
      | Some r => Some r
      | None => first_match u st'
      end
  end.

Definition caches_match (req : request) (st : storage) : option response :=
  if String.eqb (method req) "GET" then first_match (url req) st else None.

(** *** The three handlers *)

Inductive sw_event : Type :=
| SkipWaiting
| ClientsClaim.

(** [install]: [waitUntil] settles with the precaching, which is all or
    nothing: [cache.addAll] stores the assets only if every one of them was
    fetched with an ok response.  [net u] is what fetching [u] gives, [None]
    for a network failure.  The result says whether installation
    succeeded. *)
Definition asset_request (loc : location) (path : string) : request :=
  {| method := "GET"; url := origin loc +:+ path |}.

Definition fetched_asset (loc : location) (net : string -> option response) (path : string)
    : option (request * response) :=
  match net (origin loc +:+ path) with
  | Some r =>
      if ok r && storable loc (asset_request loc path) r
      then Some (asset_request loc path, r) else None
  | None => None
  end.

Fixpoint fetch_all (loc : location) (net : string -> option response) (paths : list string)
    : option (list (request * response)) :=
  match paths with
  | [] => Some []
  | p :: paths' =>
      match fetched_asset loc net p, fetch_all loc net paths' with
      | Some x, Some l => Some (x :: l)
      | _, _ => None
      end
  end.

Definition put_all (name : string) (l : list (request * response)) (st : storage) : storage :=
  fold_left (fun acc x => put_in name (url (fst x)) (snd x) acc) l st.

Definition on_install (loc : location) (net : string -> option response) (st : storage)
    : bool * storage * list sw_event :=
  let st1 := caches_open CACHE_NAME st in
  match fetch_all loc net STATIC_ASSETS with
  | Some l => (true, put_all CACHE_NAME l st1, [SkipWaiting])
  | None => (false, st1, [SkipWaiting])
  end.

(** [activate]: every cache whose name is not [CACHE_NAME] is deleted. *)
Definition on_activate (st : storage) : storage * list sw_event :=
  let stale := List.filter (fun key => negb (String.eqb key CACHE_NAME)) (caches_keys st) in
  (fold_left (fun acc key => caches_delete key acc) stale st, [ClientsClaim]).

(** What the page gets for a request. *)
Inductive answer : Type :=
| NotIntercepted            (* the handler returned without respondWith *)
| Responded (r : response)
| NetworkError.             (* respondWith settled with no response *)

(** [fetch]: requests to the API pass through; the others go to the network
    first, an ok response refreshes the cache, and a network failure falls
    back on the cache.  [net] is what [fetch(event.request)] gives. *)
Definition on_fetch (loc : location) (net : option response) (req : request) (st : storage)
    : answer * storage :=
  if starts_with "/api/" (pathname_of loc (url req)) then (NotIntercepted, st)
  else
    match net with
    | Some r =>
        (Responded r, if ok r then open_and_put loc CACHE_NAME req r st else st)
    | None =>
        (match caches_match req st with
         | Some r => Responded r
         | None => NetworkError
         end, st)
    end.

(** *** Reading a run *)

(** A sequence of fetch events, each with what the network gives for it. *)
Fixpoint serve (loc : location) (events : list (request * option response)) (st : storage)
    : storage :=
  match events with
  | [] => st
  | (req, net) :: events' => serve loc events' (snd (on_fetch loc net req st))
  end.

(** The response the worker stores for an event, if any. *)
Definition stored_by (loc : location) (ev : request * option response)
    : option (string * response) :=
  match ev with
  | (req, Some r) =>
      if negb (starts_with "/api/" (pathname_of loc (url req))) && ok r && storable loc req r
      then Some (url req, r) else None
  | (_, None) => None
  end.

(** The last response stored for the URL [u] during [events]. *)
Fixpoint last_stored (loc : location) (events : list (request * option response)) (u : string)
    (default : option response) : option response :=
  match events with
  | [] => default
  | ev :: events' =>
      match stored_by loc ev with
      | Some (u', r) => last_stored loc events' u (if String.eqb u' u then Some r else default)
      | None => last_stored loc events' u default
      end
  end.

(** No two caches of the storage have the same name. *)
Definition well_formed (st : storage) : Prop := NoDup (caches_keys st).

(** The storage holds no cache but the worker's own, as [activate] leaves
    it. *)
Definition current_only (st : storage) : Prop :=
  st = [] \/ exists c, st = [(CACHE_NAME, c)].

(** No cache holds a response for a URL of the API. *)
Definition no_api_entry (loc : location) (st : storage) : Prop :=
  forall n c u r, In (n, c) st -> c !! u = Some r ->
                  starts_with "/api/" (pathname_of loc u) = false.

End ServiceWorker.

(** *** Concrete pages, servers and storages, used to run the browser code *)
Module BrowserExamples.
Import Browser.

(** The login page as it loads, with [ 123456] and a line feed typed in. *)
Definition login_form : dom :=
  {| login_page := Some {| display := "flex" |};
     main_page := Some {| display := "none" |};
     totp_code := Some {| value := [32; 49; 50; 51; 52; 53; 54; 10]%N |};
     login_error := Some {| error_text := DString ""; error_hidden := true |};
     login_btn := Some {| disabled := false; button_text := "验证" |} |}.

Definition typed_code : list N := [49; 50; 51; 52; 53; 54]%N.

(** A server that accepts the code, and a page whose callback throws. *)
Definition accepting : env :=
  {| fetch := fun _ _ =>
       Resolves {| status := 200;
                   json_body := Normal (DObject [("authenticated", DBool true)]) |};
     onAuthenticated := Some (Throw "ReferenceError: loadTasks is not defined");
     serviceWorker := None |}.

(** A server that refuses the code. *)
Definition refusing : env :=
  {| fetch := fun _ _ =>
       Resolves {| status := 401;
                   json_body := Normal (DObject [("detail", DString "invalid code")]) |};
     onAuthenticated := Some (Normal tt);
     serviceWorker := None |}.

(** No network. *)
Definition offline : env :=
  {| fetch := fun _ _ => Rejects "TypeError: Failed to fetch";
     onAuthenticated := Some (Normal tt);
     serviceWorker := None |}.

End BrowserExamples.

(** *** A concrete site, used to run the service worker *)
Module WorkerExamples.
Import ServiceWorker.

(** The part of [s] from the first character that satisfies [stop] on, and
    the part before it. *)
Fixpoint from_first (stop : Ascii.ascii -> bool) (s : string) : string :=
  match s with
  | EmptyString => EmptyString
  | String c s' => if stop c then s else from_first stop s'
  end.

Fixpoint up_to_first (stop : Ascii.ascii -> bool) (s : string) : string :=
  match s with
  | EmptyString => EmptyString
  | String c s' => if stop c then EmptyString else String c (up_to_first stop s')
  end.

Definition ends_path (c : Ascii.ascii) : bool :=
  Ascii.eqb c "?" || Ascii.eqb c "#".

Definition ends_host (c : Ascii.ascii) : bool :=
  Ascii.eqb c "/" || ends_path c.

(** [new URL(u).pathname] for an absolute URL [scheme://host/path?query#frag]
    whose path needs no normalising: what follows the host, up to the query
    or the fragment, and [/] when that is empty. *)
Definition url_pathname (u : string) : string :=
  let after_scheme := if js_includes u "://" then ClientRun.after_first u "://" else u in
  let path := up_to_first ends_path (from_first ends_host after_scheme) in
  if String.eqb path "" then "/" else path.

Definition site : location :=
  {| pathname_of := url_pathname;
     is_http := fun u => starts_with "https://" u || starts_with "http://" u;
     origin := "https://status.wisteriazy.moe" |}.

Definition page (text : string) : response :=
  {| status := 200; vary_any := false; body := text |}.

Definition server_error : response :=
  {| status := 502; vary_any := false; body := "Bad Gateway" |}.

Definition tasks_page : request :=
  {| method := "GET"; url := "https://status.wisteriazy.moe/static/tasks.html" |}.

Definition api_status : request :=
  {| method := "GET"; url := "https://status.wisteriazy.moe/api/status" |}.

(** A storage that still has the cache of an earlier version. *)
Definition upgraded : storage :=
  [ ("dashboard-v0", {[ "https://status.wisteriazy.moe/static/tasks.html" := page "old" ]});
    ("dashboard-v1", ∅) ].

End WorkerExamples.

(** ** Properties of the string operations *)
Module StringFacts.

Lemma append_nil_l (b : string) : "" +:+ b = b.
Proof. reflexivity. Qed.

Lemma append_cons (x : Ascii.ascii) (a b : string) :
  String x a +:+ b = String x (a +:+ b).
Proof. reflexivity. Qed.

Lemma append_assoc (a b c : string) : (a +:+ b) +:+ c = a +:+ (b +:+ c).
Proof.
  induction a as [|x a IH]; [reflexivity|].
  rewrite !append_cons, IH. reflexivity.
Qed.

Lemma length_append (a b : string) :
  String.length (a +:+ b) = (String.length a + String.length b)%nat.
Proof.
  induction a as [|x a IH]; [reflexivity|].
  rewrite append_cons. cbn [String.length]. rewrite IH. reflexivity.
Qed.

Lemma starts_with_append (pat s : string) : starts_with pat (pat +:+ s) = true.
Proof.
  induction pat as [|x pat IH]; [reflexivity|].
  rewrite append_cons. cbn [starts_with]. rewrite Ascii.eqb_refl. exact IH.
Qed.

Lemma js_includes_append (p s pat : string) :
  js_includes s pat = true -> js_includes (p +:+ s) pat = true.
Proof.
  intros Hs. induction p as [|x p IH]; [exact Hs|].
  rewrite append_cons. cbn [js_includes].
  destruct (starts_with pat (String x (p +:+ s))); [reflexivity|exact IH].
Qed.

(** Dropping at most [length x] characters of [x +:+ b] leaves a text that
    ends in [b]. *)
Lemma string_drop_append (n : nat) (x b : string) :
  (n <= String.length x)%nat -> exists q, string_drop n (x +:+ b) = q +:+ b.
Proof.
  revert x. induction n as [|n IH]; intros x Hn.
  - exists x. destruct x; reflexivity.
  - destruct x as [|c x]; cbn [String.length] in Hn; [lia|].
    rewrite append_cons. cbn [string_drop]. apply IH. lia.
Qed.

(** Whatever follows an occurrence of the pattern is still there after
    [replace]. *)
Lemma js_replace_keeps_tail (a pat rep b : string) :
  exists q, js_replace (a +:+ pat +:+ b) pat rep = q +:+ b.
Proof.
  assert (Hhead : forall s, starts_with pat s = true ->
            (exists x, s = x +:+ b /\ (String.length pat <= String.length x)%nat) ->
            exists q, js_replace s pat rep = q +:+ b).
  { intros s Hsw (x & -> & Hlen).
    destruct (string_drop_append _ x b Hlen) as (q & Hq).
    exists (rep +:+ q). rewrite append_assoc, <- Hq.
    destruct (x +:+ b); cbn [js_replace]; rewrite Hsw; reflexivity. }
  induction a as [|c a IH].
  - rewrite append_nil_l. apply Hhead; [apply starts_with_append|].
    exists pat. split; [reflexivity|lia].
  - destruct (starts_with pat (String c a +:+ pat +:+ b)) eqn:Hsw.
    + apply Hhead; [exact Hsw|]. exists (String c a +:+ pat).
      split; [symmetry; apply append_assoc|]. rewrite length_append. lia.
    + rewrite append_cons in Hsw |- *. cbn [js_replace]. rewrite Hsw.
      destruct IH as (q & ->). exists (String c q). reflexivity.
Qed.

End StringFacts.

(** ** Properties of the client *)
Module ClientFacts.
Import Client StringFacts.

(** *** Equations of the script's functions *)

Lemma pushes_of_app (a b : list event) :
  pushes_of (a ++ b) = pushes_of a ++ pushes_of b.
Proof.
  induction a as [|ev a IH]; [reflexivity|].
  destruct ev; simpl; rewrite IH; reflexivity.
Qed.

Lemma console_of_app (a b : list event) :
  console_of (a ++ b) = console_of a ++ console_of b.
Proof.
  induction a as [|ev a IH]; [reflexivity|].
  destruct ev; simpl; rewrite IH; reflexivity.
Qed.

Lemma sleeps_of_app (a b : list event) :
  sleeps_of (a ++ b) = sleeps_of a ++ sleeps_of b.
Proof.
  induction a as [|ev a IH]; [reflexivity|].
  destruct ev; simpl; rewrite IH; reflexivity.
Qed.

Lemma log_eq (msg : string) (st : state) :
  log msg st = (Normal tt, st, [Console (log_line msg)]).
Proof. reflexivity. Qed.

Lemma check_status_eq (d : device_env) (st : state) :
  check_status d st = (status_reading d, st, []).
Proof.
  unfold status_reading, result_of, check_status, bind, call, ret.
  destruct (isScreenOn d) as [[|]|e]; cbn [negb fst]; try reflexivity.
  destruct (currentPackage d) as [pkg|e]; cbn [fst]; try reflexivity.
  destruct (getAppName d pkg) as [nm|e]; cbn [fst]; try reflexivity.
  destruct (getBattery d) as [b|e]; cbn [fst]; try reflexivity.
  destruct (isCharging d) as [c|e]; cbn [fst]; reflexivity.
Qed.

Lemma do_send_eq (w : tick_env) (app_name : string) (st : state) :
  do_send w app_name st =
  (Normal tt, do_send_state w app_name st,
   [ Console (log_line ("POST " +:+ API_URL));
     Post API_URL (payload (strict_ne app_name "") app_name);
     Console (log_line (do_send_report w app_name)) ]).
Proof.
  unfold do_send, do_send_state, do_send_report, acknowledged.
  unfold bind, try_catch, http_postJson, bind, emit, call, ret, set_last_send_time.
  rewrite !log_eq.
  destruct (postJson w API_URL (payload (strict_ne app_name "") app_name)) as [e|[body|e]];
    rewrite ?log_eq; destruct st; reflexivity.
Qed.

Lemma send_status_eq (w : tick_env) (st : state) (s : string) :
  status_reading (device w) = Normal s ->
  result_of (send_status w st) = Normal tt /\
  state_of (send_status w st) = tick_state w st /\
  pushes_of (output_of (send_status w st)) = tick_pushes w st.
Proof.
  intros Hs. unfold tick_state, tick_pushes, send_due. rewrite Hs.
  unfold send_status, bind. rewrite check_status_eq, Hs.
  unfold get_last_status, get_last_send_time, set_last_status.
  destruct (strict_ne s (last_status st)) eqn:Hne.
  - rewrite log_eq, do_send_eq. cbn. auto.
  - destruct (HEARTBEAT_INTERVAL <=? clock_now w - last_send_time st) eqn:Hhb.
    + rewrite log_eq, do_send_eq. cbn. auto.
    + rewrite log_eq. cbn. auto.
Qed.

Lemma send_status_throws (w : tick_env) (st : state) (e : string) :
  status_reading (device w) = Throw e ->
  send_status w st = (Throw e, st, []).
Proof.
  intros He. unfold send_status, bind. rewrite check_status_eq, He. reflexivity.
Qed.

(** Open one iteration of the loop up to its call of [send_status]. *)
Ltac enter_loop_body := unfold loop_body, bind, try_catch, emit.

Lemma loop_body_result (w : tick_env) (st : state) :
  result_of (loop_body w st) = Normal tt.
Proof.
  enter_loop_body.
  destruct (status_reading (device w)) as [s|e] eqn:Hs.
  - destruct (send_status_eq w st s Hs) as (Hr & _ & _).
    destruct (send_status w st) as [[r st1] out1]. cbn in Hr. subst r. reflexivity.
  - rewrite (send_status_throws w st e Hs), log_eq. reflexivity.
Qed.

Lemma loop_body_state (w : tick_env) (st : state) :
  state_of (loop_body w st) = tick_state w st.
Proof.
  enter_loop_body.
  destruct (status_reading (device w)) as [s|e] eqn:Hs.
  - destruct (send_status_eq w st s Hs) as (Hr & Hst & _).
    destruct (send_status w st) as [[r st1] out1]. cbn in Hr, Hst. subst r. exact Hst.
  - rewrite (send_status_throws w st e Hs), log_eq.
    unfold tick_state. rewrite Hs. reflexivity.
Qed.

Lemma loop_body_pushes (w : tick_env) (st : state) :
  pushes_of (output_of (loop_body w st)) = tick_pushes w st.
Proof.
  enter_loop_body.
  destruct (status_reading (device w)) as [s|e] eqn:Hs.
  - destruct (send_status_eq w st s Hs) as (Hr & _ & Hp).
    destruct (send_status w st) as [[r st1] out1]. cbn in Hr, Hp. subst r.
    cbn. rewrite pushes_of_app, Hp. cbn. apply app_nil_r.
  - rewrite (send_status_throws w st e Hs), log_eq.
    unfold tick_pushes. rewrite Hs. reflexivity.
Qed.

Lemma loop_body_sleeps (w : tick_env) (st : state) :
  sleeps_of (output_of (loop_body w st)) = [CHECK_INTERVAL].
Proof.
  enter_loop_body.
  destruct (status_reading (device w)) as [s|e] eqn:Hs.
  - unfold send_status, bind. rewrite check_status_eq, Hs.
    unfold get_last_status, get_last_send_time, set_last_status.
    destruct (strict_ne s (last_status st)).
    + rewrite log_eq, do_send_eq. reflexivity.
    + destruct (HEARTBEAT_INTERVAL <=? clock_now w - last_send_time st);
        rewrite log_eq, ?do_send_eq; reflexivity.
  - rewrite (send_status_throws w st e Hs), log_eq. reflexivity.
Qed.

Lemma main_loop_result (ws : list tick_env) (st : state) :
  result_of (main_loop ws st) = Normal tt.
Proof.
  revert st. induction ws as [|w ws IH]; intros st; [reflexivity|].
  cbn [main_loop]. unfold bind.
  pose proof (loop_body_result w st) as Hr.
  destruct (loop_body w st) as [[r st1] out1]. cbn in Hr. subst r.
  specialize (IH st1). destruct (main_loop ws st1) as [[r2 st2] out2].
  exact IH.
Qed.

Lemma main_loop_cons (w : tick_env) (ws : list tick_env) (st : state) :
  output_of (main_loop (w :: ws) st) =
    output_of (loop_body w st) ++ output_of (main_loop ws (state_of (loop_body w st))) /\
  state_of (main_loop (w :: ws) st) = state_of (main_loop ws (state_of (loop_body w st))).
Proof.
  cbn [main_loop]. unfold bind.
  pose proof (loop_body_result w st) as Hr.
  destruct (loop_body w st) as [[r st1] out1]. cbn in Hr. subst r.
  cbn [state_of output_of fst snd].
  destruct (main_loop ws st1) as [[r2 st2] out2]. split; reflexivity.
Qed.

Lemma main_loop_pushes (ws : list tick_env) (st : state) :
  pushes_of (output_of (main_loop ws st)) = map snd (attempts ws st).
Proof.
  revert st. induction ws as [|w ws IH]; intros st; [reflexivity|].
  destruct (main_loop_cons w ws st) as [-> _].
  rewrite pushes_of_app, IH. cbn [attempts].
  rewrite map_app, map_map. cbn [snd]. rewrite map_id. reflexivity.
Qed.

Lemma main_loop_state (ws : list tick_env) (st : state) :
  state_of (main_loop ws st) = state_after ws st.
Proof.
  revert st. induction ws as [|w ws IH]; intros st; [reflexivity|].
  destruct (main_loop_cons w ws st) as [_ ->]. apply IH.
Qed.

Lemma on_exit_eq (post : string -> json -> http_result) (st : state) :
  result_of (on_exit post st) = Normal tt /\
  state_of (on_exit post st) = st /\
  pushes_of (output_of (on_exit post st)) = [payload false ""].
Proof.
  unfold on_exit, bind, try_catch, http_postJson, bind, emit, call, ret.
  rewrite log_eq.
  destruct (post API_URL (payload false "")) as [e|r]; rewrite ?log_eq; cbn; auto.
Qed.

Lemma script_pushes (ws : list tick_env) (post : string -> json -> http_result) (st : state) :
  pushes_of (output_of (script ws post st)) =
    map snd (attempts ws st) ++ [payload false ""].
Proof.
  unfold script, bind.
  pose proof (main_loop_result ws st) as Hr.
  pose proof (main_loop_pushes ws st) as Hp.
  destruct (main_loop ws st) as [[r st1] out1]. cbn in Hr, Hp. subst r.
  destruct (on_exit_eq post st1) as (_ & _ & He).
  destruct (on_exit post st1) as [[r2 st2] out2]. cbn in He |- *.
  rewrite pushes_of_app, Hp, He. reflexivity.
Qed.

(** Every attempt of the loop posts the object [do_send] builds for the
    status it was called with. *)
Lemma tick_pushes_payload (w : tick_env) (st : state) (p : json) :
  In p (tick_pushes w st) ->
  exists s, status_reading (device w) = Normal s /\
            send_due st (clock_now w) s = true /\
            p = payload (strict_ne s "") s.
Proof.
  unfold tick_pushes. destruct (status_reading (device w)) as [s|e]; [|intros []].
  destruct (send_due st (clock_now w) s) eqn:Hd; [|intros []].
  intros [<-|[]]. exists s. auto.
Qed.

Lemma attempts_payload (ws : list tick_env) (st : state) (w : tick_env) (p : json) :
  In (w, p) (attempts ws st) -> exists s, p = payload (strict_ne s "") s.
Proof.
  revert st. induction ws as [|w0 ws IH]; intros st; [intros []|].
  cbn [attempts]. rewrite in_app_iff, in_map_iff, loop_body_pushes.
  intros [(p0 & Heq & Hin)|Hin].
  - inversion Heq; subst. destruct (tick_pushes_payload _ _ _ Hin) as (s & _ & _ & ->).
    exists s. reflexivity.
  - eapply IH, Hin.
Qed.

Lemma script_pushes_payload (ws : list tick_env) (post : string -> json -> http_result)
    (st : state) (p : json) :
  In p (pushes_of (output_of (script ws post st))) ->
  exists s, p = payload (strict_ne s "") s.
Proof.
  rewrite script_pushes, in_app_iff, in_map_iff.
  intros [([w p0] & <- & Hin)|[<-|[]]].
  - eapply attempts_payload, Hin.
  - exists "". reflexivity.
Qed.

Lemma strict_ne_true (a b : string) : strict_ne a b = true <-> a <> b.
Proof.
  unfold strict_ne. rewrite negb_true_iff.
  destruct (String.eqb_spec a b); split; congruence.
Qed.

Lemma strict_ne_false (a b : string) : strict_ne a b = false <-> a = b.
Proof.
  unfold strict_ne. rewrite negb_false_iff.
  destruct (String.eqb_spec a b); split; congruence.
Qed.

Lemma send_due_iff (st : state) (now : Z) (s : string) :
  send_due st now s = true <->
  (s <> last_status st \/ HEARTBEAT_INTERVAL <= now - last_send_time st).
Proof.
  unfold send_due. rewrite orb_true_iff, strict_ne_true, Z.leb_le. tauto.
Qed.

Lemma check_status_result (d : device_env) (st : state) :
  result_of (check_status d st) = status_reading d.
Proof. rewrite check_status_eq. reflexivity. Qed.

Lemma main_loop_sleeps (ws : list tick_env) (st : state) :
  sleeps_of (output_of (main_loop ws st)) = repeat CHECK_INTERVAL (length ws).
Proof.
  revert st. induction ws as [|w ws IH]; intros st; [reflexivity|].
  destruct (main_loop_cons w ws st) as [-> _].
  rewrite sleeps_of_app, loop_body_sleeps, IH. reflexivity.
Qed.

(** *** One iteration, by cases *)

Lemma attempts_cons (w : tick_env) (ws : list tick_env) (st : state) :
  attempts (w :: ws) st =
    map (fun p => (w, p)) (tick_pushes w st) ++ attempts ws (tick_state w st).
Proof. cbn [attempts]. rewrite loop_body_pushes, loop_body_state. reflexivity. Qed.

Lemma tick_pushes_cases (w : tick_env) (st : state) :
  (tick_pushes w st = [] /\ tick_state w st = st) \/
  (exists s, status_reading (device w) = Normal s /\
             send_due st (clock_now w) s = true /\
             tick_pushes w st = [payload (strict_ne s "") s]).
Proof.
  unfold tick_pushes, tick_state.
  destruct (status_reading (device w)) as [s|e]; [|left; auto].
  destruct (send_due st (clock_now w) s) eqn:Hd.
  - right. exists s. auto.
  - left. unfold send_due in Hd. apply orb_false_iff in Hd as [-> ->]. auto.
Qed.


(** The state an iteration leaves when it pushed [s]. *)
Lemma tick_state_pushed (w : tick_env) (st : state) (s : string) :
  status_reading (device w) = Normal s ->
  send_due st (clock_now w) s = true ->
  tick_state w st =
    {| last_status := s;
       last_send_time := if acknowledged w (payload (strict_ne s "") s)
                         then clock_sent w else last_send_time st |}.
Proof.
  intros Hs Hd. unfold tick_state, send_due, do_send_state in *. rewrite Hs.
  destruct (strict_ne s (last_status st)) eqn:Hne; cbn [orb] in Hd.
  - destruct (acknowledged w (payload (strict_ne s "") s)); reflexivity.
  - rewrite Hd. apply strict_ne_false in Hne. subst s.
    destruct (acknowledged w (payload (strict_ne (last_status st) "") (last_status st)));
      destruct st; reflexivity.
Qed.


(** *** Several iterations *)

Lemma attempts_app (ws1 ws2 : list tick_env) (st : state) :
  attempts (ws1 ++ ws2) st = attempts ws1 st ++ attempts ws2 (state_after ws1 st).
Proof.
  revert st. induction ws1 as [|w ws1 IH]; intros st; [reflexivity|].
  cbn [app attempts state_after]. rewrite IH, app_assoc. reflexivity.
Qed.

(** Iterations in which [check_status] throws attempt nothing and leave the
    two variables as they are. *)
Lemma throwing_ticks (mid : list tick_env) (st : state) :
  (forall m, In m mid -> exists e, status_reading (device m) = Throw e) ->
  state_after mid st = st /\ attempts mid st = [].
Proof.
  induction mid as [|m mid IH]; intros Hmid; [split; reflexivity|].
  destruct (Hmid m (or_introl eq_refl)) as (e & He).
  rewrite attempts_cons. cbn [state_after]. rewrite loop_body_state.
  unfold tick_state, tick_pushes. rewrite He. cbn [map app].
  apply IH. intros m' Hin. apply Hmid. right. exact Hin.
Qed.

(** *** The claims about the client *)

(** C2. Every body the script posts, in the loop through [do_send] and in the
    exit handler, is an object with exactly the five properties secret, id,
    show_name, using (a boolean) and app_name. *)
Theorem every_push_has_the_wire_format
    (ws : list tick_env) (exit_post : string -> json -> http_result) (st : state) :
  Forall is_presence_push (pushes_of (output_of (script ws exit_post st))) /\
  Forall (fun p => map fst p = ["secret"; "id"; "show_name"; "using"; "app_name"])
         (pushes_of (output_of (script ws exit_post st))) /\
  (exists p, pushes_of (output_of (on_exit exit_post st)) = [p] /\ is_presence_push p).
Proof.
  split; [|split].
  - apply List.Forall_forall. intros p Hin.
    destruct (script_pushes_payload _ _ _ _ Hin) as (s & ->).
    unfold payload, is_presence_push. eauto 10.
  - apply List.Forall_forall. intros p Hin.
    destruct (script_pushes_payload _ _ _ _ Hin) as (s & ->). reflexivity.
  - destruct (on_exit_eq exit_post st) as (_ & _ & ->).
    eexists; split; [reflexivity|]. unfold payload, is_presence_push. eauto 10.
Qed.

(** C4. An exception raised while the status is built ([check_status]) or
    while it is sent ([http.postJson], reading the response) is caught and
    logged; every iteration of the loop completes and goes on to [sleep], so
    the loop runs all its iterations whatever fails. *)
Theorem push_failures_are_contained (ws : list tick_env) (st : state) :
  result_of (main_loop ws st) = Normal tt /\
  sleeps_of (output_of (main_loop ws st)) = repeat CHECK_INTERVAL (length ws) /\
  (forall w st0 e,
      result_of (check_status (device w) st0) = Throw e ->
      loop_body w st0 =
        (Normal tt, st0, [Console (log_line ("ERROR: " +:+ e)); Sleep CHECK_INTERVAL])) /\
  (forall w app_name st0 e,
      postJson w API_URL (payload (strict_ne app_name "") app_name) = PostThrows e \/
      postJson w API_URL (payload (strict_ne app_name "") app_name) = PostReturns (Throw e) ->
      do_send w app_name st0 =
        (Normal tt, st0,
         [ Console (log_line ("POST " +:+ API_URL));
           Post API_URL (payload (strict_ne app_name "") app_name);
           Console (log_line ("ERROR: " +:+ e)) ])).
Proof.
  split; [apply main_loop_result|]. split; [apply main_loop_sleeps|]. split.
  - intros w st0 e. rewrite check_status_result. intros He.
    enter_loop_body.
    rewrite (send_status_throws w st0 e He), log_eq. reflexivity.
  - intros w app_name st0 e H. rewrite do_send_eq.
    unfold do_send_state, do_send_report, acknowledged.
    destruct H as [-> | ->]; reflexivity.
Qed.

Lemma push_failures_are_contained_witness :
  result_of (check_status (device (Scenario.tick Scenario.service_lost Scenario.t0 Scenario.server_ok))
               initial_state)
    = Throw "Error: accessibility service is not running" /\
  postJson (Scenario.tick Scenario.screen_off Scenario.t0 Scenario.network_down)
      API_URL (payload (strict_ne "" "") "")
    = PostThrows "java.net.UnknownHostException: status.wisteriazy.moe" /\
  loop_body (Scenario.tick Scenario.service_lost Scenario.t0 Scenario.server_ok) initial_state =
    (Normal tt, initial_state,
     [ Console "[dashboard] ERROR: Error: accessibility service is not running";
       Sleep 3000 ]) /\
  do_send (Scenario.tick Scenario.screen_off Scenario.t0 Scenario.network_down) "" initial_state =
    (Normal tt, initial_state,
     [ Console "[dashboard] POST https://status.wisteriazy.moe/device/set";
       Post API_URL (payload false "");
       Console "[dashboard] ERROR: java.net.UnknownHostException: status.wisteriazy.moe" ]).
Proof.
  split; [reflexivity|]. split; [reflexivity|].
  destruct (push_failures_are_contained [] initial_state) as (_ & _ & Hbuild & Hsend).
  split.
  - apply (Hbuild (Scenario.tick Scenario.service_lost Scenario.t0 Scenario.server_ok)
             initial_state "Error: accessibility service is not running").
    reflexivity.
  - apply (Hsend (Scenario.tick Scenario.screen_off Scenario.t0 Scenario.network_down)
             "" initial_state "java.net.UnknownHostException: status.wisteriazy.moe").
    left. reflexivity.
Defined.

(** C8. In every body the script posts, [using] is true exactly when
    [app_name] is not the empty string; the exit report, and a push made on
    a tick where the screen is off, carry [using = false] and an empty
    [app_name]. *)
Theorem using_iff_app_name_nonempty
    (ws : list tick_env) (exit_post : string -> json -> http_result) (st : state) :
  (forall p, In p (pushes_of (output_of (script ws exit_post st))) ->
     exists (u : bool) (a : string),
       field "using" p = Some (JBool u) /\
       field "app_name" p = Some (JString a) /\
       (u = true <-> a <> "")) /\
  (forall p, In p (pushes_of (output_of (on_exit exit_post st))) ->
     field "using" p = Some (JBool false) /\ field "app_name" p = Some (JString "")) /\
  (forall w st0 p,
     isScreenOn (device w) = Normal false ->
     In p (pushes_of (output_of (loop_body w st0))) ->
     field "using" p = Some (JBool false) /\ field "app_name" p = Some (JString "")).
Proof.
  split; [|split].
  - intros p Hin. destruct (script_pushes_payload _ _ _ _ Hin) as (s & ->).
    exists (strict_ne s ""), s. repeat split; try reflexivity; apply strict_ne_true.
  - intros p. destruct (on_exit_eq exit_post st) as (_ & _ & ->).
    intros [<-|[]]. split; reflexivity.
  - intros w st0 p Hoff. rewrite loop_body_pushes. intros Hin.
    destruct (tick_pushes_payload _ _ _ Hin) as (s & Hs & _ & ->).
    unfold status_reading, result_of, check_status, bind, call, ret in Hs.
    rewrite Hoff in Hs. cbn in Hs. inversion Hs; subst. split; reflexivity.
Qed.

Lemma using_iff_app_name_nonempty_witness :
  In (payload false "")
     (pushes_of (output_of (script [Scenario.tick Scenario.screen_off Scenario.t0 Scenario.server_ok]
                              Scenario.server_ok initial_state))) /\
  isScreenOn (device (Scenario.tick Scenario.screen_off Scenario.t0 Scenario.server_ok)) = Normal false /\
  In (payload false "")
     (pushes_of (output_of (loop_body (Scenario.tick Scenario.screen_off Scenario.t0 Scenario.server_ok)
                              initial_state))) /\
  (exists (u : bool) (a : string),
      field "using" (payload false "") = Some (JBool u) /\
      field "app_name" (payload false "") = Some (JString a) /\
      (u = true <-> a <> "")) /\
  field "using" (payload false "") = Some (JBool false) /\
  field "app_name" (payload false "") = Some (JString "").
Proof.
  destruct (using_iff_app_name_nonempty
              [Scenario.tick Scenario.screen_off Scenario.t0 Scenario.server_ok]
              Scenario.server_ok initial_state) as (Hall & _ & Hoff).
  assert (Hin : In (payload false "")
     (pushes_of (output_of (script [Scenario.tick Scenario.screen_off Scenario.t0 Scenario.server_ok]
                              Scenario.server_ok initial_state)))) by (vm_compute; auto).
  assert (Hin2 : In (payload false "")
     (pushes_of (output_of (loop_body (Scenario.tick Scenario.screen_off Scenario.t0 Scenario.server_ok)
                              initial_state)))) by (vm_compute; auto).
  split; [exact Hin|]. split; [reflexivity|]. split; [exact Hin2|].
  split; [exact (Hall _ Hin)|].
  exact (Hoff (Scenario.tick Scenario.screen_off Scenario.t0 Scenario.server_ok)
           initial_state (payload false "") eq_refl Hin2).
Defined.




(** C9, as stated, fails three times.  A post that returns does not always
    set [last_send_time]: it stays when the response body cannot be read.
    A failed post is not always re-attempted on the next tick: after a
    status change whose post threw, 3 s after an acknowledged push, the next
    iteration reads the same status, finds the heartbeat not yet due and
    posts nothing.  And even with the heartbeat due, the next iteration
    posts nothing when [check_status] throws in it. *)
Lemma failed_push_not_retried_on_next_tick :
  ~ (forall (w : tick_env) (s : string) (st : state),
        (exists r, postJson w API_URL (payload (strict_ne s "") s) = PostReturns r) ->
        last_send_time (state_of (do_send w s st)) = clock_sent w) /\
  ~ (forall (w w2 : tick_env) (st : state) (s s2 e : string),
        result_of (check_status (device w) st) = Normal s ->
        pushes_of (output_of (loop_body w st)) <> [] ->
        postJson w API_URL (payload (strict_ne s "") s) = PostThrows e ->
        result_of (check_status (device w2) (state_of (loop_body w st))) = Normal s2 ->
        clock_now w <= clock_now w2 ->
        pushes_of (output_of (loop_body w2 (state_of (loop_body w st)))) <> []) /\
  ~ (forall (w w2 : tick_env) (st : state) (s e : string),
        result_of (check_status (device w) st) = Normal s ->
        HEARTBEAT_INTERVAL <= clock_now w - last_send_time st ->
        postJson w API_URL (payload (strict_ne s "") s) = PostThrows e ->
        clock_now w <= clock_now w2 ->
        pushes_of (output_of (loop_body w2 (state_of (loop_body w st)))) <> []).
Proof.
  split; [|split].
  - intros H.
    specialize (H (Scenario.tick Scenario.phone_in_use Scenario.t0 Scenario.body_unreadable)
                  "[85%] Chrome" initial_state (ex_intro _ _ eq_refl)).
    vm_compute in H. discriminate H.
  - intros H.
    specialize (H (Scenario.tick Scenario.screen_off (Scenario.t0 + 3000) Scenario.network_down)
                  (Scenario.tick Scenario.screen_off (Scenario.t0 + 6000) Scenario.server_ok)
                  (state_after [Scenario.tick Scenario.phone_in_use Scenario.t0 Scenario.server_ok]
                               initial_state)
                  "" "" "java.net.UnknownHostException: status.wisteriazy.moe"
                  eq_refl).
    apply H; try reflexivity.
    + vm_compute. discriminate.
    + vm_compute. discriminate.
  - intros H.
    specialize (H (Scenario.tick Scenario.screen_off Scenario.t0 Scenario.network_down)
                  (Scenario.tick Scenario.service_lost (Scenario.t0 + 3000) Scenario.server_ok)
                  initial_state
                  "" "java.net.UnknownHostException: status.wisteriazy.moe"
                  eq_refl).
    apply H; try reflexivity.
    + vm_compute. discriminate.
    + vm_compute. discriminate.
Qed.

(** C9, amended. [do_send] sets [last_send_time] exactly when its [try]
    block runs to the end (the post returned and the response body was
    read) and never touches [last_status]; when the post throws,
    [last_send_time] is unchanged.  An iteration in which [check_status]
    throws attempts nothing and leaves both variables alone.  So after a
    failed push made because the heartbeat was due, the heartbeat is still
    due on every later tick whose clock is not earlier, and a push is
    attempted again on the first later tick on which [check_status]
    returns; after a failed push made because the status changed,
    [last_status] already holds the new status, and the first later tick on
    which [check_status] returns attempts a push only if the status has
    changed again or the heartbeat is due. *)
Theorem failed_push_is_retried_when_heartbeat_due
    (w : tick_env) (st : state) (s : string) :
  (acknowledged w (payload (strict_ne s "") s) = true ->
     state_of (do_send w s st) =
       {| last_status := last_status st; last_send_time := clock_sent w |}) /\
  (acknowledged w (payload (strict_ne s "") s) = false ->
     state_of (do_send w s st) = st) /\
  (forall e, postJson w API_URL (payload (strict_ne s "") s) = PostThrows e ->
     state_of (do_send w s st) = st) /\
  (forall (w2 : tick_env) (st0 : state) (e : string),
     result_of (check_status (device w2) st0) = Throw e ->
     state_of (loop_body w2 st0) = st0 /\
     pushes_of (output_of (loop_body w2 st0)) = []) /\
  (forall (mid : list tick_env) (w2 : tick_env) (s2 : string),
     result_of (check_status (device w) st) = Normal s ->
     acknowledged w (payload (strict_ne s "") s) = false ->
     (forall m, In m mid -> exists e, status_reading (device m) = Throw e) ->
     result_of (check_status (device w2) (state_of (loop_body w st))) = Normal s2 ->
     clock_now w <= clock_now w2 ->
     state_of (main_loop mid (state_of (loop_body w st))) = state_of (loop_body w st) /\
     (HEARTBEAT_INTERVAL <= clock_now w - last_send_time st ->
        pushes_of (output_of (main_loop (mid ++ [w2]) (state_of (loop_body w st))))
          = [payload (strict_ne s2 "") s2]) /\
     (s <> last_status st ->
        state_of (loop_body w st) =
          {| last_status := s; last_send_time := last_send_time st |} /\
        (pushes_of (output_of (main_loop (mid ++ [w2]) (state_of (loop_body w st)))) <> [] <->
           s2 <> s \/ HEARTBEAT_INTERVAL <= clock_now w2 - last_send_time st))).
Proof.
  assert (Hun : acknowledged w (payload (strict_ne s "") s) = false ->
                state_of (do_send w s st) = st).
  { intros Hack. rewrite do_send_eq. unfold do_send_state. rewrite Hack. reflexivity. }
  split; [|split; [exact Hun|split; [|split]]].
  - intros Hack. rewrite do_send_eq. unfold do_send_state. rewrite Hack. reflexivity.
  - intros e He. apply Hun. unfold acknowledged. rewrite He. reflexivity.
  - intros w2 st0 e. rewrite check_status_result. intros He.
    rewrite loop_body_state, loop_body_pushes. unfold tick_state, tick_pushes.
    rewrite He. split; reflexivity.
  - intros mid w2 s2. rewrite !check_status_result. intros Hs Hack Hmid Hs2 Hclock.
    destruct (throwing_ticks mid (state_of (loop_body w st)) Hmid) as [Hstay Hnone].
    rewrite !main_loop_pushes, attempts_app, Hnone, main_loop_state, Hstay.
    cbn [app attempts]. rewrite app_nil_r, map_map. cbn [snd]. rewrite map_id.
    rewrite !loop_body_pushes, !loop_body_state.
    split; [reflexivity|].
    assert (Hnext : forall st1, tick_pushes w2 st1 =
              if send_due st1 (clock_now w2) s2 then [payload (strict_ne s2 "") s2] else []).
    { intros st1. unfold tick_pushes. rewrite Hs2. reflexivity. }
    split.
    + intros Hhb.
      assert (Hd : send_due st (clock_now w) s = true)
        by (apply send_due_iff; right; exact Hhb).
      rewrite (tick_state_pushed w st s Hs Hd), Hack, Hnext.
      replace (send_due _ (clock_now w2) s2) with true; [reflexivity|].
      symmetry. apply send_due_iff. right. cbn [last_send_time]. lia.
    + intros Hne.
      assert (Hd : send_due st (clock_now w) s = true)
        by (apply send_due_iff; left; exact Hne).
      rewrite (tick_state_pushed w st s Hs Hd), Hack. split; [reflexivity|].
      rewrite Hnext.
      pose proof (send_due_iff {| last_status := s; last_send_time := last_send_time st |}
                    (clock_now w2) s2) as Hiff.
      cbn [last_status last_send_time] in Hiff.
      destruct (send_due _ (clock_now w2) s2); split.
      * intros _. apply Hiff. reflexivity.
      * intros _. discriminate.
      * intros H. contradiction.
      * intros H. apply Hiff in H. discriminate.
Qed.

Lemma failed_push_is_retried_when_heartbeat_due_witness :
  acknowledged (Scenario.tick Scenario.screen_off Scenario.t0 Scenario.network_down)
      (payload (strict_ne "" "") "") = false /\
  result_of (check_status (device (Scenario.tick Scenario.screen_off Scenario.t0 Scenario.network_down))
               initial_state) = Normal "" /\
  HEARTBEAT_INTERVAL <= Scenario.t0 - 0 /\
  status_reading (device (Scenario.tick Scenario.service_lost (Scenario.t0 + 3000) Scenario.server_ok))
    = Throw "Error: accessibility service is not running" /\
  state_of (do_send (Scenario.tick Scenario.screen_off Scenario.t0 Scenario.network_down)
              "" initial_state) = initial_state /\
  pushes_of (output_of
     (main_loop ([Scenario.tick Scenario.service_lost (Scenario.t0 + 3000) Scenario.server_ok]
                 ++ [Scenario.tick Scenario.phone_in_use (Scenario.t0 + 6000) Scenario.server_ok])
        (state_of (loop_body (Scenario.tick Scenario.screen_off Scenario.t0 Scenario.network_down)
                     initial_state))))
    = [payload true "[85%] Chrome"].
Proof.
  destruct (failed_push_is_retried_when_heartbeat_due
              (Scenario.tick Scenario.screen_off Scenario.t0 Scenario.network_down)
              initial_state "") as (_ & Hun & _ & _ & Hretry).
  split; [reflexivity|]. split; [reflexivity|].
  assert (Hhb : HEARTBEAT_INTERVAL <= Scenario.t0 - 0) by (vm_compute; discriminate).
  split; [exact Hhb|]. split; [reflexivity|]. split; [apply Hun; reflexivity|].
  destruct (Hretry [Scenario.tick Scenario.service_lost (Scenario.t0 + 3000) Scenario.server_ok]
              (Scenario.tick Scenario.phone_in_use (Scenario.t0 + 6000) Scenario.server_ok)
              "[85%] Chrome" eq_refl eq_refl) as (_ & Hheart & _).
  - intros m [<-|[]]. eexists. reflexivity.
  - reflexivity.
  - vm_compute. discriminate.
  - apply Hheart. exact Hhb.
Defined.

(** C10, where the code falls short of it.  [log] leaks the secret of
    messages that hold it more than once: [replace]
    with a string pattern rewrites the first occurrence only, so whatever
    follows an occurrence of the secret is printed as it is.  When the
    server's response repeats the secret, the line [do_send] logs still
    shows it. *)
Theorem log_redacts_first_occurrence_only :
  (forall a b : string,
      js_includes b SECRET = true ->
      js_includes (log_line (a +:+ SECRET +:+ b)) SECRET = true) /\
  log_line ("response: " +:+ SECRET +:+ " " +:+ SECRET)
    = "[dashboard] response: [SECRET] " +:+ SECRET /\
  console_of (output_of
     (do_send (Scenario.tick Scenario.phone_in_use Scenario.t0 Scenario.echo_twice)
        "[85%] Chrome" initial_state))
    = [ "[dashboard] POST https://status.wisteriazy.moe/device/set";
        "[dashboard] response: [SECRET] erh3PVxATcxS9qHlVZkAXBf_TZ6f-HrcGwNPREOJ-bc" ].
Proof.
  split; [|split; reflexivity].
  intros a b Hb. unfold log_line.
  destruct (js_replace_keeps_tail a SECRET "[SECRET]" b) as (q & ->).
  apply js_includes_append, js_includes_append, Hb.
Qed.

Lemma log_redacts_first_occurrence_only_witness :
  js_includes (" " +:+ SECRET) SECRET = true /\
  js_includes (log_line ("response: " +:+ SECRET +:+ " " +:+ SECRET)) SECRET = true.
Proof.
  split; [reflexivity|].
  apply (proj1 log_redacts_first_occurrence_only "response: " (" " +:+ SECRET)).
  reflexivity.
Defined.

End ClientFacts.

(** ** Properties of the presence tracker *)
Module PresenceFacts.
Import Presence.

Section Tracker.
Variable timeout_seconds : Z.

Lemma consistent_later (now now' : Z) (m : gmap string Entry) :
  now <= now' -> consistent timeout_seconds now m -> consistent timeout_seconds now' m.
Proof.
  intros Hle Hc dev e He. destruct (Hc dev e He) as [Hu Ho].
  split; [exact Hu|]. intros Hoff. specialize (Ho Hoff). lia.
Qed.

Lemma consistent_empty (now : Z) : consistent timeout_seconds now ∅.
Proof. intros dev e. rewrite lookup_empty. discriminate. Qed.

Lemma consistent_step (now : Z) (i : Input) (m : gmap string Entry) :
  consistent timeout_seconds now m ->
  consistent timeout_seconds now (tracker_step timeout_seconds now i m).
Proof.
  intros Hc dev e. destruct i as [p|]; cbn [tracker_step].
  - unfold inbound_push. rewrite lookup_insert.
    case_decide as Hdev.
    + intros [= <-]. cbn. split; discriminate.
    + apply Hc.
  - unfold watchdog_sweep. rewrite lookup_fmap.
    destruct (m !! dev) as [e0|] eqn:He0; [|discriminate].
    cbn. intros [= <-]. destruct (Hc dev e0 He0) as [Hu Ho].
    unfold watchdog_check. destruct (Z.ltb_spec timeout_seconds (now - last_seen (record e0))).
    + cbn. split; [discriminate|]. auto.
    + split; assumption.
Qed.

Lemma tracker_run_consistent (inputs : list (N * Input)) (now : Z) (m : gmap string Entry) :
  consistent timeout_seconds now m ->
  consistent timeout_seconds (tracker_run timeout_seconds now inputs m).2
             (tracker_run timeout_seconds now inputs m).1 /\
  now <= (tracker_run timeout_seconds now inputs m).2.
Proof.
  revert now m. induction inputs as [|[gap i] inputs IH]; intros now m Hc.
  - cbn. split; [exact Hc|lia].
  - cbn [tracker_run].
    destruct (IH (now + Z.of_N gap) (tracker_step timeout_seconds (now + Z.of_N gap) i m))
      as [H1 H2].
    + apply consistent_step. eapply consistent_later; [|exact Hc]. lia.
    + split; [exact H1|lia].
Qed.

(** What a sweep reports for a stored device. *)
Lemma report_after_sweep (now : Z) (m : gmap string Entry) (dev : string) (e : Entry) :
  m !! dev = Some e ->
  report (watchdog_sweep timeout_seconds now m) dev =
    if timeout_seconds <? now - last_seen (record e) then Offline else presence e.
Proof.
  intros He. unfold report, watchdog_sweep. rewrite lookup_fmap, He. cbn.
  unfold watchdog_check. destruct (timeout_seconds <? now - last_seen (record e)); reflexivity.
Qed.

End Tracker.

(** *** The claim about the presence tracker *)

(** C7. For every device the tracker holds, after any history of pushes and
    sweeps, the watchdog reports it [Offline] exactly when
    [now - last_seen > timeout_seconds] and [Online] otherwise: a device with
    [last_seen = now - timeout_seconds - 1] is reported [Offline], one with
    [last_seen = now - timeout_seconds + 1] is reported [Online]. *)
Theorem offline_exactly_after_timeout
    (timeout_seconds start : Z) (inputs : list (N * Input)) (gap : N)
    (dev : string) (e : Entry) :
  let m := (tracker_run timeout_seconds start inputs ∅).1 in
  let now := (tracker_run timeout_seconds start inputs ∅).2 + Z.of_N gap in
  m !! dev = Some e ->
  (report (watchdog_sweep timeout_seconds now m) dev = Offline <->
     now - last_seen (record e) > timeout_seconds) /\
  (report (watchdog_sweep timeout_seconds now m) dev = Online <->
     now - last_seen (record e) <= timeout_seconds) /\
  (last_seen (record e) = now - timeout_seconds - 1 ->
     report (watchdog_sweep timeout_seconds now m) dev = Offline) /\
  (last_seen (record e) = now - timeout_seconds + 1 ->
     report (watchdog_sweep timeout_seconds now m) dev = Online).
Proof.
  intros m now He.
  destruct (tracker_run_consistent timeout_seconds inputs start ∅
              (consistent_empty timeout_seconds start)) as [Hc _].
  fold m in Hc. destruct (Hc dev e He) as [Hu Ho].
  rewrite (report_after_sweep timeout_seconds now m dev e He).
  destruct (Z.ltb_spec timeout_seconds (now - last_seen (record e))) as [Hlt|Hge].
  - repeat split; try lia; try discriminate; auto.
  - assert (Hon : presence e = Online).
    { destruct (presence e); [congruence|reflexivity|]. specialize (Ho eq_refl).
      subst now. lia. }
    rewrite Hon. repeat split; try lia; try discriminate; auto.
Qed.

Lemma offline_exactly_after_timeout_witness :
  (tracker_run default_timeout_seconds 1000 [(0%N, Pushed Examples.phone_push)] ∅).1 !! "phone"
    = Some {| record := {| device_id := "phone"; show_name := "Phone"; using_ := true;
                           app_name := "[85%] Chrome"; last_seen := 1000 |};
              presence := Online |} /\
  1000 = (1000 + 0 + 61) - default_timeout_seconds - 1 /\
  1000 = (1000 + 0 + 59) - default_timeout_seconds + 1 /\
  report (watchdog_sweep default_timeout_seconds 1061
            (tracker_run default_timeout_seconds 1000 [(0%N, Pushed Examples.phone_push)] ∅).1) "phone" = Offline /\
  report (watchdog_sweep default_timeout_seconds 1059
            (tracker_run default_timeout_seconds 1000 [(0%N, Pushed Examples.phone_push)] ∅).1) "phone" = Online.
Proof.
  assert (He : (tracker_run default_timeout_seconds 1000 [(0%N, Pushed Examples.phone_push)] ∅).1 !! "phone"
    = Some {| record := {| device_id := "phone"; show_name := "Phone"; using_ := true;
                           app_name := "[85%] Chrome"; last_seen := 1000 |};
              presence := Online |}) by (vm_compute; reflexivity).
  split; [exact He|]. split; [reflexivity|]. split; [reflexivity|]. split.
  - destruct (offline_exactly_after_timeout default_timeout_seconds 1000 [(0%N, Pushed Examples.phone_push)]
                61%N "phone" _ He) as (_ & _ & Hoff & _).
    apply Hoff. reflexivity.
  - destruct (offline_exactly_after_timeout default_timeout_seconds 1000 [(0%N, Pushed Examples.phone_push)]
                59%N "phone" _ He) as (_ & _ & _ & Hon).
    apply Hon. reflexivity.
Defined.

End PresenceFacts.

(** ** Properties of the reminder core *)
Module ReminderFacts.
Import Reminder.

(** *** Calendar *)

Lemma days_in_month_bounds (y m : Z) : 28 <= days_in_month y m <= 31.
Proof.
  unfold days_in_month.
  destruct (m =? 2); [destruct (is_leap y); lia|].
  destruct ((m =? 4) || (m =? 6) || (m =? 9) || (m =? 11)); lia.
Qed.

Lemma february_is_short (y : Z) : days_in_month y 2 <= 29.
Proof. unfold days_in_month. cbn. destruct (is_leap y); lia. Qed.

Lemma next_day_valid (d : Date) : valid_date d -> valid_date (next_day d).
Proof.
  unfold valid_date, next_day. intros (Hm & Hd & Hw).
  pose proof (days_in_month_bounds (year d) (month d)) as Hb.
  pose proof (days_in_month_bounds (year d) (month d + 1)) as Hb1.
  pose proof (days_in_month_bounds (year d + 1) 1) as Hb2.
  destruct (Z.eqb_spec (weekday d) 7);
    destruct (Z.ltb_spec (day d) (days_in_month (year d) (month d)));
    [| destruct (Z.ltb_spec (month d) 12) | | destruct (Z.ltb_spec (month d) 12)];
    cbn [year month day weekday]; lia.
Qed.

Lemma date_of_day_valid (n : nat) : valid_date (date_of_day n).
Proof.
  unfold date_of_day. induction n as [|n IH].
  - cbn. unfold valid_date. cbn. lia.
  - cbn [Nat.iter]. apply next_day_valid, IH.
Qed.

Lemma mem_In (x : Z) (l : list Z) : mem x l = true <-> In x l.
Proof.
  unfold mem. rewrite existsb_exists. split.
  - intros (y & Hin & Heq). apply Z.eqb_eq in Heq. subst y. exact Hin.
  - intros Hin. exists x. split; [exact Hin|apply Z.eqb_refl].
Qed.

(** *** The evaluator *)

Lemma latest_spec (P : Z -> bool) (fuel : nat) (h x : Z) :
  latest P fuel h = Some x ->
  P x = true /\ x <= h /\ (forall z, x < z <= h -> P z = false).
Proof.
  revert h. induction fuel as [|fuel IH]; intros h; cbn [latest]; [discriminate|].
  destruct (P h) eqn:HP.
  - intros [= <-]. repeat split; [exact HP|lia|]. intros z Hz. lia.
  - intros Hl. destruct (IH _ Hl) as (Hx & Hle & Hmax).
    repeat split; [exact Hx|lia|].
    intros z Hz. destruct (Z.eq_dec z h) as [->|Hne]; [exact HP|]. apply Hmax. lia.
Qed.




(** *** The task store *)




(** *** The store, task id by task id *)




(** *** One attempt *)



(** *** Attempts in the order of their occurrences *)






(** *** Clock readings that do not go back *)




(** *** The loop as a sequence of attempts *)








(** *** The claims about the reminder core *)




(** C6. An occurrence of a Monthly rule always falls on a calendar day that
    exists and whose day-of-month is listed in the rule, at the rule's hour:
    a listed day that a month does not have gives no occurrence in that
    month, and no other day stands in for it.  In particular
    [Monthly{days:[31]}] has no occurrence in any February. *)
Theorem monthly_skips_days_the_month_lacks (days : list Z) (hour : Z) :
  (forall h, occurs_at (Monthly days hour) h = true ->
      In (day (date_at h)) days /\
      1 <= day (date_at h) <= days_in_month (year (date_at h)) (month (date_at h)) /\
      hour_of_day h = hour) /\
  (forall now o, is_due (Monthly days hour) now = Some o ->
      o * 3600 <= now /\
      In (day (date_at o)) days /\
      1 <= day (date_at o) <= days_in_month (year (date_at o)) (month (date_at o)) /\
      hour_of_day o = hour) /\
  (forall h, month (date_at h) = 2 -> occurs_at (Monthly [31] hour) h = false) /\
  (forall now o, is_due (Monthly [31] hour) now = Some o ->
      month (date_at o) <> 2 /\ day (date_at o) = 31).
Proof.
  assert (Hocc : forall ds h, occurs_at (Monthly ds hour) h = true ->
      In (day (date_at h)) ds /\
      1 <= day (date_at h) <= days_in_month (year (date_at h)) (month (date_at h)) /\
      hour_of_day h = hour).
  { intros ds h. cbn [occurs_at]. rewrite andb_true_iff, mem_In, Z.eqb_eq.
    intros [Hin Hh]. destruct (date_of_day_valid (Z.to_nat (h / 24))) as (_ & Hd & _).
    auto. }
  assert (Hdue : forall ds now o, is_due (Monthly ds hour) now = Some o ->
      o * 3600 <= now /\ occurs_at (Monthly ds hour) o = true).
  { intros ds now o Hl. cbn [is_due] in Hl. apply latest_spec in Hl as (Ho & Hle & _).
    split; [|exact Ho]. unfold hour_index in Hle.
    pose proof (Z.mul_div_le now 3600 ltac:(lia)). nia. }
  assert (Hfeb : forall h, occurs_at (Monthly [31] hour) h = true -> month (date_at h) <> 2).
  { intros h Ho Hm. destruct (Hocc _ _ Ho) as ([Hin|[]] & Hd & _).
    rewrite <- Hin, Hm in Hd. pose proof (february_is_short (year (date_at h))). lia. }
  split; [apply Hocc|]. split; [|split].
  - intros now o Hl. destruct (Hdue _ _ _ Hl) as [Hle Ho].
    destruct (Hocc _ _ Ho) as (H1 & H2 & H3). auto.
  - intros h Hm. destruct (occurs_at (Monthly [31] hour) h) eqn:Ho; [|reflexivity].
    exfalso. exact (Hfeb h Ho Hm).
  - intros now o Hl. destruct (Hdue _ _ _ Hl) as [_ Ho]. split; [exact (Hfeb o Ho)|].
    destruct (Hocc _ _ Ho) as ([Hin|[]] & _). symmetry. exact Hin.
Qed.

Lemma monthly_skips_days_the_month_lacks_witness :
  is_due (Monthly [31] 9) Examples.first_of_march = Some 729 /\
  occurs_at (Monthly [31] 9) 729 = true /\
  date_at 729 = {| year := 1970; month := 1; day := 31; weekday := 6 |} /\
  month (date_at (hour_index (local_time 58 9))) = 2 /\
  occurs_at (Monthly [31] 9) (hour_index (local_time 58 9)) = false /\
  (month (date_at 729) <> 2 /\ day (date_at 729) = 31) /\
  In (day (date_at 729)) [31].
Proof.
  destruct (monthly_skips_days_the_month_lacks [31] 9) as (Hocc & Hdue & Hfeb & Hlast).
  assert (H1 : is_due (Monthly [31] 9) Examples.first_of_march = Some 729)
    by (vm_compute; reflexivity).
  assert (H2 : occurs_at (Monthly [31] 9) 729 = true) by (vm_compute; reflexivity).
  assert (H3 : month (date_at (hour_index (local_time 58 9))) = 2) by (vm_compute; reflexivity).
  split; [exact H1|]. split; [exact H2|]. split; [vm_compute; reflexivity|].
  split; [exact H3|]. split; [exact (Hfeb _ H3)|]. split; [exact (Hlast _ _ H1)|].
  exact (proj1 (Hocc _ H2)).
Defined.

End ReminderFacts.

(** ** More properties of the client *)
Module ClientRunFacts.
Import Client ClientRun StringFacts ClientFacts.

(** *** [check_status] *)

(** X1. A status [check_status] returns is either empty or the battery
    prefix followed by a non-empty application name; it is empty exactly
    when the screen is off or the application has no name. *)
Theorem check_status_format (d : device_env) (s : string) :
  result_of (check_status d initial_state) = Normal s ->
  (s <> "" ->
     isScreenOn d = Normal true /\
     exists pkg name battery charging,
       currentPackage d = Normal pkg /\
       getAppName d pkg = Normal (Some name) /\ name <> "" /\
       getBattery d = Normal battery /\ isCharging d = Normal charging /\
       s = "[" +:+ battery +:+ (if charging then "% +] " else "%] ") +:+ name) /\
  (s = "" ->
     isScreenOn d = Normal false \/
     exists pkg name, currentPackage d = Normal pkg /\
                      getAppName d pkg = Normal name /\ falsy name = true).
Proof.
  unfold result_of, check_status, bind, call, ret.
  destruct (isScreenOn d) as [[|]|e]; cbn [negb fst]; try discriminate.
  - destruct (currentPackage d) as [pkg|e]; cbn [fst]; try discriminate.
    destruct (getAppName d pkg) as [nm|e] eqn:Hname; cbn [fst]; try discriminate.
    destruct (getBattery d) as [b|e]; cbn [fst]; try discriminate.
    destruct (isCharging d) as [c|e]; cbn [fst]; try discriminate.
    destruct (falsy nm) eqn:Hf; intros [= <-].
    + split; [congruence|]. intros _. right. exists pkg, nm. auto.
    + split.
      * intros _. split; [reflexivity|].
        destruct nm as [name|]; [|discriminate]. cbn in Hf.
        exists pkg, name, b, c. repeat split; try reflexivity.
        -- exact Hname.
        -- intros ->. discriminate.
        -- destruct c; reflexivity.
      * destruct c; discriminate.
  - intros [= <-]. split; [congruence|]. intros _. left. reflexivity.
Qed.

Lemma check_status_format_witness :
  result_of (check_status Scenario.phone_in_use initial_state) = Normal "[85%] Chrome" /\
  "[85%] Chrome" <> "" /\
  isScreenOn Scenario.phone_in_use = Normal true.
Proof.
  split; [reflexivity|]. split; [discriminate|].
  destruct (check_status_format Scenario.phone_in_use "[85%] Chrome" eq_refl) as [H _].
  apply H. discriminate.
Defined.

(** *** The two variables over a run *)

Lemma tick_state_last_status (w : tick_env) (st : state) :
  last_status (tick_state w st) =
    match status_reading (device w) with
    | Normal s => s
    | Throw _ => last_status st
    end.
Proof.
  unfold tick_state, do_send_state.
  destruct (status_reading (device w)) as [s|e]; [|reflexivity].
  destruct (strict_ne s (last_status st)) eqn:Hne.
  - destruct (acknowledged w _); reflexivity.
  - apply strict_ne_false in Hne.
    destruct (HEARTBEAT_INTERVAL <=? clock_now w - last_send_time st);
      [destruct (acknowledged w _)|]; cbn; congruence.
Qed.

(** X2. After any number of iterations [last_status] is the status
    [check_status] returned last, whether or not it was pushed and whether
    or not the push went through; iterations in which [check_status] threw
    leave it alone. *)
Theorem last_status_is_last_reading (ws : list tick_env) (st : state) :
  last_status (state_of (main_loop ws st)) = last_reading ws (last_status st).
Proof.
  rewrite main_loop_state. revert st.
  induction ws as [|w ws IH]; intros st; [reflexivity|].
  cbn [state_after last_reading]. rewrite IH, loop_body_state, tick_state_last_status.
  destruct (status_reading (device w)); reflexivity.
Qed.

Lemma tick_state_last_send_time (w : tick_env) (st : state) :
  last_send_time (tick_state w st) =
    last_acknowledged (map (fun p => (w, p)) (tick_pushes w st)) (last_send_time st).
Proof.
  destruct (tick_pushes_cases w st) as [[-> ->]|(s & Hs & Hd & ->)]; [reflexivity|].
  rewrite (tick_state_pushed w st s Hs Hd). reflexivity.
Qed.

Lemma last_acknowledged_app (l1 l2 : list (tick_env * json)) (t : Z) :
  last_acknowledged (l1 ++ l2) t = last_acknowledged l2 (last_acknowledged l1 t).
Proof.
  revert t. induction l1 as [|[w p] l1 IH]; intros t; [reflexivity|].
  cbn [app last_acknowledged]. apply IH.
Qed.

(** X3. After any number of iterations [last_send_time] is the time read
    after the last acknowledged push of the run, and its initial value when
    no push was acknowledged: attempts that fail never move it. *)
Theorem last_send_time_is_last_acknowledged (ws : list tick_env) (st : state) :
  last_send_time (state_of (main_loop ws st)) =
    last_acknowledged (attempts ws st) (last_send_time st).
Proof.
  rewrite main_loop_state. revert st.
  induction ws as [|w ws IH]; intros st; [reflexivity|].
  cbn [state_after]. rewrite IH, attempts_cons, last_acknowledged_app, loop_body_state.
  rewrite tick_state_last_send_time. reflexivity.
Qed.

(** X4. Started at any time of day the clock can show (at least
    [HEARTBEAT_INTERVAL] milliseconds after the epoch), the script pushes
    the status on its first iteration whatever it is, the empty status of a
    dark screen included. *)
Theorem first_iteration_always_reports (w : tick_env) (s : string) :
  HEARTBEAT_INTERVAL <= clock_now w ->
  result_of (check_status (device w) initial_state) = Normal s ->
  pushes_of (output_of (loop_body w initial_state)) = [payload (strict_ne s "") s].
Proof.
  intros Hnow Hs. rewrite check_status_result in Hs.
  rewrite loop_body_pushes. unfold tick_pushes. rewrite Hs.
  replace (send_due initial_state (clock_now w) s) with true; [reflexivity|].
  symmetry. apply send_due_iff. right. cbn [initial_state last_send_time]. lia.
Qed.

Lemma first_iteration_always_reports_witness :
  HEARTBEAT_INTERVAL <= clock_now (Scenario.tick Scenario.screen_off Scenario.t0 Scenario.server_ok) /\
  pushes_of (output_of (loop_body (Scenario.tick Scenario.screen_off Scenario.t0 Scenario.server_ok)
                          initial_state)) = [payload false ""].
Proof.
  assert (H : HEARTBEAT_INTERVAL
              <= clock_now (Scenario.tick Scenario.screen_off Scenario.t0 Scenario.server_ok))
    by (vm_compute; discriminate).
  split; [exact H|].
  exact (first_iteration_always_reports _ "" H eq_refl).
Defined.

(** *** The exit handler *)

(** X6. The exit handler posts the offline report once, leaves the two
    variables alone and never throws: a post that throws is logged as
    [Exit report error], and the response of a post that returns is not
    read at all. *)
Theorem exit_report_is_contained (post : string -> json -> http_result) (st : state) :
  result_of (on_exit post st) = Normal tt /\
  state_of (on_exit post st) = st /\
  output_of (on_exit post st) =
    [ Console (log_line "Script exit, reporting offline");
      Toast "[dashboard] 脚本停止";
      Post API_URL (payload false "") ] ++
    match post API_URL (payload false "") with
    | PostThrows e => [Console (log_line ("Exit report error: " +:+ e))]
    | PostReturns _ => []
    end.
Proof.
  unfold on_exit, bind, try_catch, http_postJson, bind, emit, call, ret.
  rewrite log_eq.
  destruct (post API_URL (payload false "")) as [e|r]; rewrite ?log_eq; cbn; auto.
Qed.

(** *** The send condition over a run *)

Lemma state_after_last_status (ws : list tick_env) (st : state) :
  last_status (state_after ws st) = last_reading ws (last_status st).
Proof.
  revert st. induction ws as [|w ws IH]; intros st; [reflexivity|].
  cbn [state_after last_reading]. rewrite IH, loop_body_state, tick_state_last_status.
  destruct (status_reading (device w)); reflexivity.
Qed.

Lemma state_after_last_send_time (ws : list tick_env) (st : state) :
  last_send_time (state_after ws st) =
    last_acknowledged (attempts ws st) (last_send_time st).
Proof.
  revert st. induction ws as [|w ws IH]; intros st; [reflexivity|].
  cbn [state_after]. rewrite IH, attempts_cons, last_acknowledged_app, loop_body_state.
  rewrite tick_state_last_send_time. reflexivity.
Qed.

(** C1, as stated, fails at a tick on which [check_status] throws: the
    heartbeat interval has passed since the last successful send (there has
    been none yet, at the script's first tick), and no push is attempted. *)
Lemma no_push_when_check_status_throws :
  ~ (forall (before : list tick_env) (w : tick_env),
        HEARTBEAT_INTERVAL
          <= clock_now w - last_acknowledged (attempts before initial_state) 0 ->
        length (pushes_of (output_of
                  (send_status w (state_of (main_loop before initial_state))))) = 1%nat).
Proof.
  intros H.
  specialize (H [] (Scenario.tick Scenario.service_lost Scenario.t0 Scenario.server_ok)).
  vm_compute in H. discriminate H. intros Hlt. discriminate Hlt.
Qed.

(** C1, amended. Take any tick of a run of the script, after the ticks
    [before].  When it is reached, [last_status] is the status
    [check_status] returned at the most recent earlier tick at which it
    returned (the empty string when there is none) and [last_send_time] is
    the time read after the most recent acknowledged push (0 when there is
    none).  If [check_status] returns the status [s] at the tick,
    [send_status] makes exactly one HTTP push, of [s], when [s] differs from
    that previous status or at least [HEARTBEAT_INTERVAL] milliseconds have
    passed since that time, and makes no push otherwise.  If [check_status]
    throws, [send_status] throws in turn and makes no push, whatever the
    heartbeat. *)
Theorem send_status_pushes_exactly_when_due (before : list tick_env) (w : tick_env) :
  let st := state_of (main_loop before initial_state) in
  let previous := last_reading before "" in
  let last_ok := last_acknowledged (attempts before initial_state) 0 in
  let pushes := pushes_of (output_of (send_status w st)) in
  last_status st = previous /\
  last_send_time st = last_ok /\
  (forall s, result_of (check_status (device w) st) = Normal s ->
     let due := s <> previous \/ HEARTBEAT_INTERVAL <= clock_now w - last_ok in
     (due -> pushes = [payload (strict_ne s "") s]) /\
     (~ due -> pushes = []) /\
     (length pushes = 1%nat <-> due)) /\
  (forall e, result_of (check_status (device w) st) = Throw e ->
     send_status w st = (Throw e, st, []) /\ pushes = []).
Proof.
  intros st previous last_ok pushes.
  assert (Hprev : last_status st = previous).
  { unfold st. rewrite main_loop_state. apply state_after_last_status. }
  assert (Hlast : last_send_time st = last_ok).
  { unfold st. rewrite main_loop_state. apply state_after_last_send_time. }
  split; [exact Hprev|]. split; [exact Hlast|]. split.
  - intros s. rewrite check_status_result. intros Hs due.
    destruct (send_status_eq w st s Hs) as (_ & _ & Hp).
    fold pushes in Hp. unfold tick_pushes in Hp. rewrite Hs in Hp.
    pose proof (send_due_iff st (clock_now w) s) as Hd.
    rewrite Hprev, Hlast in Hd. fold due in Hd.
    destruct (send_due st (clock_now w) s); rewrite Hp.
    + assert (due) by (apply Hd; reflexivity). repeat split; auto. contradiction.
    + assert (~ due) by (intros Hdue; apply Hd in Hdue; discriminate).
      repeat split; auto; try contradiction. cbn. discriminate.
  - intros e. rewrite check_status_result. intros He.
    unfold pushes. rewrite (send_status_throws w st e He). split; reflexivity.
Qed.

Lemma send_status_pushes_exactly_when_due_witness :
  last_reading [ Scenario.tick Scenario.phone_in_use Scenario.t0 Scenario.server_ok;
                 Scenario.tick Scenario.phone_in_use (Scenario.t0 + 3000) Scenario.network_down ]
               "" = "[85%] Chrome" /\
  last_acknowledged
    (attempts [ Scenario.tick Scenario.phone_in_use Scenario.t0 Scenario.server_ok;
                Scenario.tick Scenario.phone_in_use (Scenario.t0 + 3000) Scenario.network_down ]
              initial_state) 0 = Scenario.t0 + 120 /\
  pushes_of (output_of
     (send_status (Scenario.tick Scenario.phone_in_use (Scenario.t0 + 6000) Scenario.server_ok)
        (state_of (main_loop
           [ Scenario.tick Scenario.phone_in_use Scenario.t0 Scenario.server_ok;
             Scenario.tick Scenario.phone_in_use (Scenario.t0 + 3000) Scenario.network_down ]
           initial_state)))) = [] /\
  pushes_of (output_of
     (send_status (Scenario.tick Scenario.phone_in_use (Scenario.t0 + 12000) Scenario.server_ok)
        (state_of (main_loop
           [ Scenario.tick Scenario.phone_in_use Scenario.t0 Scenario.server_ok;
             Scenario.tick Scenario.phone_in_use (Scenario.t0 + 3000) Scenario.network_down ]
           initial_state)))) = [payload true "[85%] Chrome"] /\
  pushes_of (output_of
     (send_status (Scenario.tick Scenario.service_lost (Scenario.t0 + 12000) Scenario.server_ok)
        (state_of (main_loop
           [ Scenario.tick Scenario.phone_in_use Scenario.t0 Scenario.server_ok;
             Scenario.tick Scenario.phone_in_use (Scenario.t0 + 3000) Scenario.network_down ]
           initial_state)))) = [].
Proof.
  split; [reflexivity|]. split; [reflexivity|]. split; [|split].
  - destruct (send_status_pushes_exactly_when_due
                [ Scenario.tick Scenario.phone_in_use Scenario.t0 Scenario.server_ok;
                  Scenario.tick Scenario.phone_in_use (Scenario.t0 + 3000) Scenario.network_down ]
                (Scenario.tick Scenario.phone_in_use (Scenario.t0 + 6000) Scenario.server_ok))
      as (_ & _ & Hret & _).
    destruct (Hret "[85%] Chrome" eq_refl) as (_ & Hnot & _).
    apply Hnot. vm_compute. intros [Hne|Hle]; [apply Hne; reflexivity|apply Hle; reflexivity].
  - destruct (send_status_pushes_exactly_when_due
                [ Scenario.tick Scenario.phone_in_use Scenario.t0 Scenario.server_ok;
                  Scenario.tick Scenario.phone_in_use (Scenario.t0 + 3000) Scenario.network_down ]
                (Scenario.tick Scenario.phone_in_use (Scenario.t0 + 12000) Scenario.server_ok))
      as (_ & _ & Hret & _).
    destruct (Hret "[85%] Chrome" eq_refl) as (Hdue & _ & _).
    apply Hdue. right. vm_compute. discriminate.
  - destruct (send_status_pushes_exactly_when_due
                [ Scenario.tick Scenario.phone_in_use Scenario.t0 Scenario.server_ok;
                  Scenario.tick Scenario.phone_in_use (Scenario.t0 + 3000) Scenario.network_down ]
                (Scenario.tick Scenario.service_lost (Scenario.t0 + 12000) Scenario.server_ok))
      as (_ & _ & _ & Hthrow).
    apply (Hthrow "Error: accessibility service is not running"). reflexivity.
Defined.

End ClientRunFacts.

(** ** More properties of [log] *)
Module LogFacts.
Import Client ClientRun StringFacts.

Lemma js_replace_absent (s pat rep : string) :
  js_includes s pat = false -> js_replace s pat rep = s.
Proof.
  induction s as [|c s IH]; cbn [js_includes js_replace].
  - destruct (starts_with pat ""); [discriminate|reflexivity].
  - destruct (starts_with pat (String c s)); [discriminate|].
    intros H. rewrite (IH H). reflexivity.
Qed.

Lemma after_first_absent (s pat : string) :
  js_includes s pat = false -> after_first s pat = "".
Proof.
  induction s as [|c s IH]; cbn [js_includes after_first].
  - destruct (starts_with pat ""); [discriminate|reflexivity].
  - destruct (starts_with pat (String c s)); [discriminate|exact IH].
Qed.

(** A text that starts with a pattern free of [c] after the pattern was
    replaced by a text starting with [c] started with it before. *)
Lemma starts_with_replaced (c : Ascii.ascii) (q s pat rep : string) :
  has_char c q = false ->
  starts_with q (js_replace s pat (String c rep)) = true ->
  starts_with q s = true.
Proof.
  revert q. induction s as [|x s IH]; intros q Hq; cbn [js_replace].
  - destruct (starts_with pat "").
    + rewrite append_cons. destruct q as [|y q]; [reflexivity|].
      cbn [starts_with has_char] in *. apply orb_false_iff in Hq as [Hy _].
      rewrite Hy. discriminate.
    + auto.
  - destruct (starts_with pat (String x s)).
    + rewrite append_cons. destruct q as [|y q]; [reflexivity|].
      cbn [starts_with has_char] in *. apply orb_false_iff in Hq as [Hy _].
      rewrite Hy. discriminate.
    + destruct q as [|y q]; [reflexivity|].
      cbn [starts_with has_char] in *. apply orb_false_iff in Hq as [_ Hq].
      destruct (Ascii.eqb y x); [|discriminate]. apply IH, Hq.
Qed.

Lemma secret_has_no_bracket : has_char "["%char SECRET = false.
Proof. reflexivity. Qed.

Lemma placeholder_then (rest : string) :
  js_includes ("[SECRET]" +:+ rest) SECRET = js_includes rest SECRET.
Proof.
  rewrite !append_cons, append_nil_l.
  do 8 (cbn [js_includes]; match goal with
        | |- context [starts_with SECRET (String ?a ?r)] =>
            change (starts_with SECRET (String a r)) with false; cbv iota
        end).
  reflexivity.
Qed.

Lemma replaced_has_no_secret (msg : string) :
  js_includes (after_first msg SECRET) SECRET = false ->
  js_includes (js_replace msg SECRET "[SECRET]") SECRET = false.
Proof.
  induction msg as [|c msg IH]; cbn [after_first js_replace].
  - destruct (starts_with SECRET "") eqn:H; [discriminate H|]. intros _. reflexivity.
  - destruct (starts_with SECRET (String c msg)) eqn:Hsw.
    + intros H. rewrite placeholder_then. exact H.
    + intros H. specialize (IH H). cbn [js_includes].
      destruct (starts_with SECRET (String c (js_replace msg SECRET "[SECRET]"))) eqn:Hsw2;
        [|exact IH].
      assert (Hrep : starts_with SECRET (js_replace (String c msg) SECRET "[SECRET]") = true).
      { cbn [js_replace]. rewrite Hsw. exact Hsw2. }
      apply (starts_with_replaced "["%char) in Hrep; [|apply secret_has_no_bracket].
      congruence.
Qed.

Lemma prefix_then (rest : string) :
  js_includes ("[dashboard] " +:+ rest) SECRET = js_includes rest SECRET.
Proof.
  rewrite !append_cons, append_nil_l.
  do 12 (cbn [js_includes]; match goal with
         | |- context [starts_with SECRET (String ?a ?r)] =>
             change (starts_with SECRET (String a r)) with false; cbv iota
         end).
  reflexivity.
Qed.

(** X5. [log] prints a message that does not hold the secret as it is,
    behind the prefix, and prints no secret at all when the message holds
    none after its first occurrence: exactly the messages with a second
    occurrence leak it. *)
Theorem log_redacts_a_single_occurrence (msg : string) :
  (js_includes msg SECRET = false -> log_line msg = "[dashboard] " +:+ msg) /\
  (js_includes (after_first msg SECRET) SECRET = false ->
     js_includes (log_line msg) SECRET = false).
Proof.
  unfold log_line. split.
  - intros H. rewrite (js_replace_absent _ _ _ H). reflexivity.
  - intros H. rewrite prefix_then. apply replaced_has_no_secret, H.
Qed.

Lemma log_redacts_a_single_occurrence_witness :
  js_includes (after_first ("response: " +:+ SECRET +:+ " ok") SECRET) SECRET = false /\
  js_includes (log_line ("response: " +:+ SECRET +:+ " ok")) SECRET = false /\
  log_line ("response: " +:+ SECRET +:+ " ok") = "[dashboard] response: [SECRET] ok".
Proof.
  split; [reflexivity|]. split; [|reflexivity].
  apply (proj2 (log_redacts_a_single_occurrence ("response: " +:+ SECRET +:+ " ok"))).
  reflexivity.
Defined.

End LogFacts.

(** ** Properties of the page script *)
Module BrowserFacts.
Import Eff Browser.

(** Run the script's functions on a page given by its elements. *)
Ltac run_script :=
  cbv [submitTotp initApp checkAuth handleUnauthorized showLoginPage showMainPage
       focus_code_input call_onAuthenticated do_fetch
       set_error_text show_error hide_error set_button_disabled set_button_text
       update_error update_button set_login_display set_main_display element
       bind ret throw get put emit call try_catch try_finally detached
       result_of state_of output_of fst snd app
       login_page main_page totp_code login_error login_btn
       error_text error_hidden disabled button_text display fetches_of].

(** Split on what the environment and the page decide, innermost first. *)
Ltac split_cases :=
  repeat (cbv beta iota;
          match goal with
          | |- context [match ?x with _ => _ end] =>
              lazymatch x with
              | context [match _ with _ => _ end] => fail
              | _ => destruct x eqn:?
              end
          end);
  repeat match goal with u : unit |- _ => destruct u end.

(** *** The code that is accepted *)

Lemma trim_start_spaces (l s : list N) :
  forallb is_space l = true -> trim_start (l ++ s) = trim_start s.
Proof.
  induction l as [|c l IH]; [reflexivity|]. cbn [forallb app trim_start].
  intros H. apply andb_true_iff in H as [-> H]. apply IH, H.
Qed.

Lemma trim_start_decompose (s : list N) :
  exists l, s = l ++ trim_start s /\ forallb is_space l = true.
Proof.
  induction s as [|c s (l & Hs & Hl)]; [exists []; auto|].
  cbn [trim_start]. destruct (is_space c) eqn:Hc.
  - exists (c :: l). cbn [app forallb]. rewrite Hc, Hl. split; [congruence|reflexivity].
  - exists []. auto.
Qed.

Lemma digit_is_no_space (c : N) : is_digit c = true -> is_space c = false.
Proof.
  unfold is_digit, is_space. intros H. apply andb_true_iff in H as [H1 H2].
  apply N.leb_le in H1. apply N.leb_le in H2.
  cbn [existsb]. repeat (rewrite orb_false_iff; split);
    first [apply N.eqb_neq; lia | rewrite andb_false_iff; left; apply N.leb_gt; lia
          | reflexivity].
Qed.

Lemma forallb_rev {A} (f : A -> bool) (l : list A) : forallb f (rev l) = forallb f l.
Proof.
  induction l as [|x l IH]; [reflexivity|].
  cbn [rev forallb]. rewrite forallb_app, IH. cbn. rewrite andb_true_r. apply andb_comm.
Qed.

Lemma trim_start_digits (m : list N) :
  forallb is_digit m = true -> trim_start m = m.
Proof.
  destruct m as [|c m]; [reflexivity|]. cbn [forallb trim_start].
  intros H. apply andb_true_iff in H as [H _]. rewrite (digit_is_no_space c H). reflexivity.
Qed.

(** X7. The code [submitTotp] accepts is six ASCII digits, with any white
    space before and after them and none between them. *)
Theorem accepted_codes (s : list N) :
  six_digits (trim s) = true <->
  exists l m r, s = l ++ m ++ r /\
                forallb is_space l = true /\ forallb is_space r = true /\
                length m = 6%nat /\ forallb is_digit m = true.
Proof.
  unfold six_digits. rewrite andb_true_iff, Nat.eqb_eq. split.
  - intros [Hlen Hdig].
    destruct (trim_start_decompose s) as (l & Hs & Hl).
    destruct (trim_start_decompose (rev (trim_start s))) as (r & Hr & Hrs).
    exists l, (trim s), (rev r). repeat split; auto.
    + rewrite Hs at 1. f_equal. unfold trim.
      rewrite <- rev_app_distr, <- Hr, rev_involutive. reflexivity.
    + rewrite forallb_rev. exact Hrs.
  - intros (l & m & r & -> & Hl & Hr & Hlen & Hdig).
    assert (Htrim : trim (l ++ m ++ r) = m).
    { unfold trim. rewrite (trim_start_spaces l _ Hl).
      assert (Hm : trim_start (m ++ r) = m ++ r).
      { destruct m as [|c m]; [discriminate|]. cbn [forallb app trim_start] in *.
        apply andb_true_iff in Hdig as [Hc _]. rewrite (digit_is_no_space c Hc). reflexivity. }
      rewrite Hm, rev_app_distr, trim_start_spaces by (rewrite forallb_rev; exact Hr).
      rewrite trim_start_digits by (rewrite forallb_rev; exact Hdig).
      apply rev_involutive. }
    rewrite Htrim. auto.
Qed.

Lemma accepted_codes_witness :
  six_digits (trim [32; 49; 50; 51; 52; 53; 54; 10]%N) = true /\
  (exists l m r, [32; 49; 50; 51; 52; 53; 54; 10]%N = l ++ m ++ r /\
                 forallb is_space l = true /\ forallb is_space r = true /\
                 length m = 6%nat /\ forallb is_digit m = true) /\
  six_digits (trim [49; 50; 51; 32; 52; 53; 54]%N) = false.
Proof.
  split; [reflexivity|]. split; [|reflexivity].
  apply (proj1 (accepted_codes [32; 49; 50; 51; 52; 53; 54; 10]%N)). reflexivity.
Defined.

(** *** [submitTotp] *)

(** X8. [submitTotp] sends nothing unless the trimmed value of the code
    input is six digits: whatever it sends is one POST of that code to
    [/api/auth/verify], and a rejected value only shows the hint, with no
    request made and the button left alone. *)
Theorem submitTotp_validates_before_asking (w : env) (d : dom) :
  (forall url init,
      In (url, init) (fetches_of (output_of (submitTotp w d))) ->
      exists input, totp_code d = Some input /\
                    six_digits (trim (value input)) = true /\
                    fetches_of (output_of (submitTotp w d)) =
                      [("/api/auth/verify", PostJson [("code", trim (value input))])]) /\
  (forall input e,
      totp_code d = Some input -> login_error d = Some e ->
      six_digits (trim (value input)) = false ->
      submitTotp w d =
        (Normal tt,
         {| login_page := login_page d; main_page := main_page d; totp_code := totp_code d;
            login_error := Some {| error_text := DString "请输入 6 位数字验证码";
                                   error_hidden := false |};
            login_btn := login_btn d |}, [])).
Proof.
  split.
  - destruct d as [lp mp ti er bt]. destruct ti as [input|]; [|intros ? ? []].
    intros url init Hin. exists input. split; [reflexivity|].
    revert Hin. run_script.
    destruct (six_digits (trim (value input))) eqn:Hv; cbn [negb].
    + destruct bt as [b|], er as [e|]; try (intros []).
      intros _. split; [reflexivity|].
      split_cases; reflexivity.
    + destruct er; intros [].
  - intros input e Hi He Hv. destruct d as [lp mp ti er bt]. cbn in Hi, He. subst ti er.
    run_script. rewrite Hv. reflexivity.
Qed.

Lemma submitTotp_validates_before_asking_witness :
  In ("/api/auth/verify", PostJson [("code", BrowserExamples.typed_code)])
     (fetches_of (output_of (submitTotp BrowserExamples.refusing BrowserExamples.login_form))) /\
  exists input, totp_code BrowserExamples.login_form = Some input /\
                six_digits (trim (value input)) = true /\
                fetches_of (output_of (submitTotp BrowserExamples.refusing
                                         BrowserExamples.login_form)) =
                  [("/api/auth/verify", PostJson [("code", trim (value input))])].
Proof.
  assert (H : In ("/api/auth/verify", PostJson [("code", BrowserExamples.typed_code)])
     (fetches_of (output_of (submitTotp BrowserExamples.refusing BrowserExamples.login_form))))
    by (left; reflexivity).
  split; [exact H|].
  exact (proj1 (submitTotp_validates_before_asking BrowserExamples.refusing
                  BrowserExamples.login_form) _ _ H).
Defined.

(** X9. Once the value is accepted and the button and the error element
    are there, [submitTotp] always completes and always leaves the button
    enabled and labelled as before the request, whatever the network, the
    response body, the page elements or [onAuthenticated] do. *)
Theorem submitTotp_reenables_the_button
    (w : env) (d : dom) (input : input_el) (e : error_el) (b : button_el) :
  totp_code d = Some input -> login_error d = Some e -> login_btn d = Some b ->
  six_digits (trim (value input)) = true ->
  result_of (submitTotp w d) = Normal tt /\
  login_btn (state_of (submitTotp w d)) = Some {| disabled := false; button_text := "验证" |}.
Proof.
  intros Hi He Hb Hv. destruct d as [lp mp ti er bt]. cbn in Hi, He, Hb. subst ti er bt.
  run_script. rewrite Hv. cbn [negb]. split_cases; split; reflexivity.
Qed.

Lemma submitTotp_reenables_the_button_witness :
  six_digits (trim [32; 49; 50; 51; 52; 53; 54; 10]%N) = true /\
  result_of (submitTotp BrowserExamples.accepting BrowserExamples.login_form) = Normal tt /\
  login_btn (state_of (submitTotp BrowserExamples.accepting BrowserExamples.login_form))
    = Some {| disabled := false; button_text := "验证" |}.
Proof.
  split; [reflexivity|].
  exact (submitTotp_reenables_the_button BrowserExamples.accepting BrowserExamples.login_form
           _ _ _ eq_refl eq_refl eq_refl eq_refl).
Defined.

(** X10. On a page with all its elements, [submitTotp] with an accepted
    value switches to the main page exactly when the server answers with
    an ok status; a refusal and a network failure leave both pages as they
    are. *)
Theorem submitTotp_shows_main_page_iff_ok
    (w : env) (d : dom) (lp mp : page_el) (input : input_el) (e : error_el) (b : button_el) :
  login_page d = Some lp -> main_page d = Some mp ->
  totp_code d = Some input -> login_error d = Some e -> login_btn d = Some b ->
  six_digits (trim (value input)) = true ->
  let pages := (login_page (state_of (submitTotp w d)), main_page (state_of (submitTotp w d))) in
  (forall r, fetch w "/api/auth/verify" (PostJson [("code", trim (value input))]) = Resolves r ->
             ok r = true ->
             pages = (Some {| display := "none" |}, Some {| display := "block" |})) /\
  (forall r, fetch w "/api/auth/verify" (PostJson [("code", trim (value input))]) = Resolves r ->
             ok r = false -> pages = (Some lp, Some mp)) /\
  (forall x, fetch w "/api/auth/verify" (PostJson [("code", trim (value input))]) = Rejects x ->
             pages = (Some lp, Some mp)).
Proof.
  intros Hlp Hmp Hi He Hb Hv. destruct d as [lp0 mp0 ti er bt].
  cbn in Hlp, Hmp, Hi, He, Hb. subst lp0 mp0 ti er bt.
  run_script. rewrite Hv. cbn [negb].
  repeat split; intros ? Hf; try intros Hok; rewrite Hf; cbv beta iota;
    rewrite ?Hok; split_cases; reflexivity.
Qed.

Lemma submitTotp_shows_main_page_iff_ok_witness :
  (login_page (state_of (submitTotp BrowserExamples.accepting BrowserExamples.login_form)),
   main_page (state_of (submitTotp BrowserExamples.accepting BrowserExamples.login_form)))
    = (Some {| display := "none" |}, Some {| display := "block" |}) /\
  (login_page (state_of (submitTotp BrowserExamples.refusing BrowserExamples.login_form)),
   main_page (state_of (submitTotp BrowserExamples.refusing BrowserExamples.login_form)))
    = (Some {| display := "flex" |}, Some {| display := "none" |}).
Proof.
  split.
  - exact (proj1 (submitTotp_shows_main_page_iff_ok BrowserExamples.accepting
                    BrowserExamples.login_form _ _ _ _ _
                    eq_refl eq_refl eq_refl eq_refl eq_refl eq_refl) _ eq_refl eq_refl).
  - exact (proj1 (proj2 (submitTotp_shows_main_page_iff_ok BrowserExamples.refusing
                    BrowserExamples.login_form _ _ _ _ _
                    eq_refl eq_refl eq_refl eq_refl eq_refl eq_refl)) _ eq_refl eq_refl).
Defined.

(** X11. What [submitTotp] leaves in the error element, on a page with all
    its elements and an accepted value: hidden after a successful login;
    the server's [detail], or the default text when it has none, after a
    refusal; and the network-error text not only when the request fails but
    also when the refusal's body cannot be read, and when [onAuthenticated]
    throws after the main page was shown. *)
Theorem submitTotp_error_message
    (w : env) (d : dom) (lp mp : page_el) (input : input_el) (e : error_el) (b : button_el) :
  login_page d = Some lp -> main_page d = Some mp ->
  totp_code d = Some input -> login_error d = Some e -> login_btn d = Some b ->
  six_digits (trim (value input)) = true ->
  let answer := fetch w "/api/auth/verify" (PostJson [("code", trim (value input))]) in
  let shown v := Some {| error_text := v; error_hidden := false |} in
  let error := login_error (state_of (submitTotp w d)) in
  (forall x, answer = Rejects x -> error = shown (DString "网络错误")) /\
  (forall r props, answer = Resolves r -> ok r = false ->
      json_body r = Normal (DObject props) ->
      error = shown (js_or (own_prop "detail" props) (DString "验证失败"))) /\
  (forall r x, answer = Resolves r -> ok r = false ->
      json_body r = Throw x \/ json_body r = Normal DNull ->
      error = shown (DString "网络错误")) /\
  (forall r x, answer = Resolves r -> ok r = true ->
      onAuthenticated w = Some (Throw x) ->
      error = shown (DString "网络错误")) /\
  (forall r, answer = Resolves r -> ok r = true ->
      onAuthenticated w = None \/ onAuthenticated w = Some (Normal tt) ->
      error = Some {| error_text := error_text e; error_hidden := true |}).
Proof.
  intros Hlp Hmp Hi He Hb Hv. destruct d as [lp0 mp0 ti er bt].
  cbn in Hlp, Hmp, Hi, He, Hb. subst lp0 mp0 ti er bt.
  run_script. rewrite Hv. cbn [negb]. destruct e as [txt hid].
  repeat split.
  - intros x ->. reflexivity.
  - intros r props -> Hok Hj. cbv beta iota. rewrite Hok, Hj. reflexivity.
  - intros r x -> Hok [Hj|Hj]; cbv beta iota; rewrite Hok, Hj; reflexivity.
  - intros r x -> Hok Hcb. cbv beta iota. rewrite Hok, Hcb. reflexivity.
  - intros r -> Hok [Hcb|Hcb]; cbv beta iota; rewrite Hok, Hcb; reflexivity.
Qed.

Lemma submitTotp_error_message_witness :
  login_error (state_of (submitTotp BrowserExamples.accepting BrowserExamples.login_form))
    = Some {| error_text := DString "网络错误"; error_hidden := false |} /\
  login_error (state_of (submitTotp BrowserExamples.refusing BrowserExamples.login_form))
    = Some {| error_text := DString "invalid code"; error_hidden := false |} /\
  login_error (state_of (submitTotp BrowserExamples.offline BrowserExamples.login_form))
    = Some {| error_text := DString "网络错误"; error_hidden := false |}.
Proof.
  destruct (submitTotp_error_message BrowserExamples.accepting BrowserExamples.login_form
              _ _ _ _ _ eq_refl eq_refl eq_refl eq_refl eq_refl eq_refl)
    as (_ & _ & _ & Hcb & _).
  destruct (submitTotp_error_message BrowserExamples.refusing BrowserExamples.login_form
              _ _ _ _ _ eq_refl eq_refl eq_refl eq_refl eq_refl eq_refl)
    as (_ & Hdetail & _).
  destruct (submitTotp_error_message BrowserExamples.offline BrowserExamples.login_form
              _ _ _ _ _ eq_refl eq_refl eq_refl eq_refl eq_refl eq_refl)
    as (Hnet & _).
  split; [|split].
  - exact (Hcb _ _ eq_refl eq_refl eq_refl).
  - exact (Hdetail _ _ eq_refl eq_refl eq_refl).
  - exact (Hnet _ eq_refl).
Defined.

(** *** [checkAuth], [initApp] and [handleUnauthorized] *)



(** X13. [handleUnauthorized] answers [true] exactly for status 401, and
    then it has switched to the login page; for any other status it answers
    [false] and does nothing. *)
Theorem handleUnauthorized_only_on_401 (res : response) (d : dom) :
  (status res <> 401 -> handleUnauthorized res d = (Normal false, d, [])) /\
  (forall lp mp, status res = 401 -> login_page d = Some lp -> main_page d = Some mp ->
     result_of (handleUnauthorized res d) = Normal true /\
     login_page (state_of (handleUnauthorized res d)) = Some {| display := "flex" |} /\
     main_page (state_of (handleUnauthorized res d)) = Some {| display := "none" |}) /\
  (forall a, result_of (handleUnauthorized res d) = Normal a ->
     (a = true <-> status res = 401)).
Proof.
  unfold handleUnauthorized. destruct (Z.eqb_spec (status res) 401) as [H401|H401].
  - split; [contradiction|]. split.
    + intros lp mp _ Hlp Hmp. destruct d as [lp0 mp0 ti er bt]. cbn in Hlp, Hmp. subst.
      run_script. split_cases; repeat split; reflexivity.
    + intros a. destruct d as [lp0 mp0 ti er bt]. run_script. split_cases;
        intros [= <-]; tauto.
  - split; [reflexivity|]. split; [contradiction|].
    intros a [= <-]. split; [discriminate|contradiction].
Qed.

Lemma handleUnauthorized_only_on_401_witness :
  status {| status := 401; json_body := Normal DNull |} = 401 /\
  result_of (handleUnauthorized {| status := 401; json_body := Normal DNull |}
               BrowserExamples.login_form) = Normal true /\
  handleUnauthorized {| status := 403; json_body := Normal DNull |} BrowserExamples.login_form
    = (Normal false, BrowserExamples.login_form, []).
Proof.
  destruct (handleUnauthorized_only_on_401 {| status := 401; json_body := Normal DNull |}
              BrowserExamples.login_form) as (_ & H401 & _).
  destruct (handleUnauthorized_only_on_401 {| status := 403; json_body := Normal DNull |}
              BrowserExamples.login_form) as (Hother & _).
  split; [reflexivity|]. split.
  - exact (proj1 (H401 _ _ eq_refl eq_refl eq_refl)).
  - apply Hother. discriminate.
Defined.

End BrowserFacts.

(** ** Properties of the service worker *)
Module ServiceWorkerFacts.
Import ServiceWorker.

(** *** The cache storage *)

Lemma find_cache_In (name : string) (st : storage) (c : gmap string response) :
  find_cache name st = Some c -> In (name, c) st.
Proof.
  induction st as [|[n c0] st IH]; cbn [find_cache]; [discriminate|].
  destruct (String.eqb_spec n name) as [->|Hne].
  - intros [= ->]. left. reflexivity.
  - intros H. right. apply IH, H.
Qed.

Lemma find_cache_None (name : string) (st : storage) :
  find_cache name st = None <-> ~ In name (caches_keys st).
Proof.
  induction st as [|[n c0] st IH]; cbn [find_cache caches_keys map fst In]; [tauto|].
  destruct (String.eqb_spec n name) as [->|Hne]; split.
  - discriminate.
  - intros H. exfalso. apply H. left. reflexivity.
  - intros H [Heq|Hin]; [contradiction|]. apply IH in H. contradiction.
  - intros H. apply IH. intros Hin. apply H. right. exact Hin.
Qed.

Lemma keys_put_in (name u : string) (r : response) (st : storage) :
  caches_keys (put_in name u r st) = caches_keys st.
Proof.
  induction st as [|[n c] st IH]; [reflexivity|]. cbn [put_in].
  destruct (String.eqb n name); cbn [caches_keys map fst]; [reflexivity|].
  f_equal. exact IH.
Qed.

Lemma In_put_in (name u : string) (r : response) (st : storage)
    (n : string) (c : gmap string response) :
  In (n, c) (put_in name u r st) ->
  In (n, c) st \/ exists c0, In (n, c0) st /\ n = name /\ c = <[u := r]> c0.
Proof.
  induction st as [|[n0 c0] st IH]; cbn [put_in]; [intros []|].
  destruct (String.eqb_spec n0 name) as [->|Hne].
  - intros [[= <- <-]|Hin].
    + right. exists c0. split; [left; reflexivity|auto].
    + left. right. exact Hin.
  - intros [Heq|Hin].
    + left. left. exact Heq.
    + destruct (IH Hin) as [H|(c1 & H & Hn & Hc)].
      * left. right. exact H.
      * right. exists c1. split; [right; exact H|auto].
Qed.

Lemma In_caches_open (name : string) (st : storage) (n : string) (c : gmap string response) :
  In (n, c) (caches_open name st) -> In (n, c) st \/ c = ∅.
Proof.
  unfold caches_open. destruct (find_cache name st); [auto|].
  rewrite in_app_iff. intros [H|[[= <- <-]|[]]]; auto.
Qed.

(** *** [fetch] *)

Lemma on_fetch_current_only (loc : location) (net : option response) (req : request)
    (st : storage) :
  current_only st ->
  current_only (snd (on_fetch loc net req st)) /\
  forall u, first_match u (snd (on_fetch loc net req st)) =
            match stored_by loc (req, net) with
            | Some (u', r) => if String.eqb u' u then Some r else first_match u st
            | None => first_match u st
            end.
Proof.
  intros Hst. unfold on_fetch, stored_by.
  destruct (starts_with "/api/" (pathname_of loc (url req))); cbn [negb andb snd];
    [split; [assumption|intros; destruct net; reflexivity]|].
  destruct net as [r|]; cbn [snd]; [|split; [assumption|reflexivity]].
  destruct (ok r); cbn [andb]; [|split; [assumption|reflexivity]].
  assert (Hput : exists c0,
            caches_open CACHE_NAME st = [(CACHE_NAME, c0)] /\
            (forall u, first_match u st = c0 !! u)).
  { unfold caches_open. destruct Hst as [->|[c ->]]; cbn [find_cache app].
    - exists ∅. split; [reflexivity|]. intros u. rewrite lookup_empty. reflexivity.
    - rewrite String.eqb_refl. exists c. split; [reflexivity|].
      intros u. cbn [first_match]. destruct (c !! u); reflexivity. }
  destruct Hput as (c0 & Hopen & Hold).
  unfold open_and_put. cbv zeta. rewrite Hopen. destruct (storable loc req r).
  - cbn [put_in]. rewrite String.eqb_refl. split; [right; eexists; reflexivity|].
    intros u. cbn [first_match]. rewrite Hold.
    destruct (String.eqb_spec (url req) u) as [->|Hne].
    + rewrite lookup_insert_eq. reflexivity.
    + rewrite lookup_insert_ne by exact Hne. destruct (c0 !! u); reflexivity.
  - split; [right; eexists; reflexivity|].
    intros u. cbn [first_match]. rewrite Hold. destruct (c0 !! u); reflexivity.
Qed.

Lemma serve_current_only (loc : location) (events : list (request * option response))
    (st : storage) :
  current_only st ->
  current_only (serve loc events st) /\
  forall u, first_match u (serve loc events st) = last_stored loc events u (first_match u st).
Proof.
  revert st. induction events as [|[req net] events IH]; intros st Hst; [auto|].
  cbn [serve last_stored].
  destruct (on_fetch_current_only loc net req st Hst) as [Hst' Hm].
  destruct (IH _ Hst') as [H1 H2]. split; [exact H1|].
  intros u. rewrite H2, Hm. destruct (stored_by loc (req, net)) as [[u' r]|]; reflexivity.
Qed.

(** X14. Once only the worker's own cache is left, what a page gets for a
    GET while the network is down is the last response the worker stored
    for that URL (the last ok answer of the network to a storable request
    for it, API excluded), or else what the cache held for it before; with
    neither, a network error.  Failures and error answers in between do not
    replace it. *)
Theorem offline_serves_the_last_stored_response
    (loc : location) (events : list (request * option response))
    (st : storage) (req : request) :
  current_only st ->
  method req = "GET" ->
  starts_with "/api/" (pathname_of loc (url req)) = false ->
  fst (on_fetch loc None req (serve loc events st)) =
    match last_stored loc events (url req) (first_match (url req) st) with
    | Some r => Responded r
    | None => NetworkError
    end.
Proof.
  intros Hst Hget Hapi. unfold on_fetch, caches_match. rewrite Hapi, Hget. cbn [fst].
  rewrite String.eqb_refl.
  destruct (serve_current_only loc events st Hst) as [_ ->]. reflexivity.
Qed.

Lemma offline_serves_the_last_stored_response_witness :
  current_only [(CACHE_NAME, ∅)] /\
  fst (on_fetch WorkerExamples.site None WorkerExamples.tasks_page
         (serve WorkerExamples.site
            [ (WorkerExamples.tasks_page, Some (WorkerExamples.page "tasks"));
              (WorkerExamples.tasks_page, Some WorkerExamples.server_error);
              (WorkerExamples.tasks_page, None) ]
            [(CACHE_NAME, ∅)]))
    = Responded (WorkerExamples.page "tasks").
Proof.
  assert (H : current_only [(CACHE_NAME, ∅)]) by (right; eexists; reflexivity).
  split; [exact H|].
  exact (offline_serves_the_last_stored_response WorkerExamples.site
           [ (WorkerExamples.tasks_page, Some (WorkerExamples.page "tasks"));
             (WorkerExamples.tasks_page, Some WorkerExamples.server_error);
             (WorkerExamples.tasks_page, None) ]
           [(CACHE_NAME, ∅)] WorkerExamples.tasks_page H eq_refl eq_refl).
Defined.

Lemma on_fetch_no_api_entry (loc : location) (net : option response) (req : request)
    (st : storage) :
  no_api_entry loc st -> no_api_entry loc (snd (on_fetch loc net req st)).
Proof.
  intros Hst. unfold on_fetch.
  destruct (starts_with "/api/" (pathname_of loc (url req))) eqn:Hapi; [exact Hst|].
  destruct net as [r|]; cbn [snd]; [|exact Hst].
  destruct (ok r); [|exact Hst].
  assert (Hopen : no_api_entry loc (caches_open CACHE_NAME st)).
  { intros n c u r0 Hin Hu. apply In_caches_open in Hin as [Hin| ->].
    - eapply Hst; eauto.
    - rewrite lookup_empty in Hu. discriminate. }
  unfold open_and_put. destruct (storable loc req r); [|exact Hopen].
  intros n c u r0 Hin Hu. apply In_put_in in Hin as [Hin|(c0 & Hin & _ & ->)].
  - eapply Hopen; eauto.
  - destruct (String.eqb_spec (url req) u) as [<-|Hne]; [exact Hapi|].
    rewrite lookup_insert_ne in Hu by exact Hne. eapply Hopen; eauto.
Qed.

(** X15. A request to the API is never intercepted, and its response never
    enters a cache: over any sequence of fetch events the storage stays
    free of API URLs. *)
Theorem api_is_never_cached (loc : location) (events : list (request * option response))
    (st : storage) :
  (forall net req,
      starts_with "/api/" (pathname_of loc (url req)) = true ->
      on_fetch loc net req st = (NotIntercepted, st)) /\
  (no_api_entry loc st -> no_api_entry loc (serve loc events st)).
Proof.
  split.
  - intros net req Hapi. unfold on_fetch. rewrite Hapi. reflexivity.
  - revert st. induction events as [|[req net] events IH]; intros st Hst; [exact Hst|].
    cbn [serve]. apply IH, on_fetch_no_api_entry, Hst.
Qed.

Lemma api_is_never_cached_witness :
  no_api_entry WorkerExamples.site [] /\
  on_fetch WorkerExamples.site (Some (WorkerExamples.page "{}")) WorkerExamples.api_status []
    = (NotIntercepted, []) /\
  no_api_entry WorkerExamples.site
    (serve WorkerExamples.site
       [ (WorkerExamples.api_status, Some (WorkerExamples.page "{}"));
         (WorkerExamples.tasks_page, Some (WorkerExamples.page "tasks")) ] []).
Proof.
  assert (H : no_api_entry WorkerExamples.site []) by (intros n c u r []).
  split; [exact H|]. split.
  - apply (proj1 (api_is_never_cached WorkerExamples.site [] [])). reflexivity.
  - apply (proj2 (api_is_never_cached WorkerExamples.site _ [])). exact H.
Defined.

(** *** [activate] *)

Lemma delete_all (keys : list string) (st : storage) :
  fold_left (fun acc key => caches_delete key acc) keys st =
    List.filter (fun nc => forallb (fun key => negb (String.eqb (fst nc) key)) keys) st.
Proof.
  revert st. induction keys as [|k keys IH]; intros st; cbn [fold_left forallb].
  - induction st as [|x st IHst]; [reflexivity|]. cbn [List.filter]. f_equal. exact IHst.
  - rewrite IH. unfold caches_delete. clear IH.
    induction st as [|x st IHst]; [reflexivity|]. cbn [List.filter].
    destruct (negb (String.eqb (fst x) k)); cbn [andb List.filter]; rewrite IHst;
      reflexivity.
Qed.

Lemma on_activate_eq (st : storage) :
  fst (on_activate st) = List.filter (fun nc => String.eqb (fst nc) CACHE_NAME) st.
Proof.
  unfold on_activate. cbn [fst]. rewrite delete_all. apply filter_ext_in.
  intros [n c] Hin. cbn [fst].
  destruct (String.eqb_spec n CACHE_NAME) as [->|Hne].
  - apply forallb_forall. intros k Hk. apply filter_In in Hk as [_ Hk].
    rewrite String.eqb_sym. exact Hk.
  - apply not_true_iff_false. intros Hall.
    rewrite forallb_forall in Hall. specialize (Hall n).
    rewrite String.eqb_refl in Hall. cbn in Hall.
    assert (false = true); [|discriminate]. apply Hall. apply filter_In. split.
    + unfold caches_keys. apply in_map_iff. exists (n, c). auto.
    + apply negb_true_iff, String.eqb_neq, Hne.
Qed.

Lemma filter_current (st : storage) :
  well_formed st ->
  List.filter (fun nc => String.eqb (fst nc) CACHE_NAME) st =
    match find_cache CACHE_NAME st with
    | Some c => [(CACHE_NAME, c)]
    | None => []
    end.
Proof.
  unfold well_formed. induction st as [|[n c] st IH]; intros Hnd; [reflexivity|].
  cbn [caches_keys map fst] in Hnd. apply NoDup_cons in Hnd as [Hnot Hnd].
  cbn [List.filter find_cache fst]. destruct (String.eqb_spec n CACHE_NAME) as [->|Hne].
  - rewrite (IH Hnd).
    assert (Hnone : find_cache CACHE_NAME st = None).
    { apply find_cache_None. intros Hin. apply Hnot, list_elem_of_In, Hin. }
    rewrite Hnone. reflexivity.
  - apply IH, Hnd.
Qed.

(** X16. Activation deletes every cache but the worker's own and leaves
    that one as it is; afterwards a lookup can only be answered from it, so
    entries of older caches no longer stand in front of it. *)
Theorem activate_keeps_only_the_current_cache (st : storage) :
  well_formed st ->
  current_only (fst (on_activate st)) /\
  find_cache CACHE_NAME (fst (on_activate st)) = find_cache CACHE_NAME st /\
  (forall req, caches_match req (fst (on_activate st)) =
               if String.eqb (method req) "GET"
               then match find_cache CACHE_NAME st with
                    | Some c => c !! url req
                    | None => None
                    end
               else None) /\
  fst (on_activate (fst (on_activate st))) = fst (on_activate st).
Proof.
  intros Hwf. rewrite !on_activate_eq, (filter_current st Hwf).
  destruct (find_cache CACHE_NAME st) as [c|]; cbn [List.filter fst find_cache].
  - rewrite String.eqb_refl. cbn [List.filter]. repeat split.
    + right. eexists. reflexivity.
    + intros req. unfold caches_match. destruct (String.eqb (method req) "GET");
        [|reflexivity]. cbn [first_match]. destruct (c !! url req); reflexivity.
  - repeat split. left. reflexivity.
Qed.

Lemma activate_keeps_only_the_current_cache_witness :
  well_formed WorkerExamples.upgraded /\
  caches_match WorkerExamples.tasks_page WorkerExamples.upgraded
    = Some (WorkerExamples.page "old") /\
  caches_match WorkerExamples.tasks_page (fst (on_activate WorkerExamples.upgraded)) = None /\
  current_only (fst (on_activate WorkerExamples.upgraded)).
Proof.
  assert (H : well_formed WorkerExamples.upgraded).
  { apply (bool_decide_unpack _). vm_compute. exact I. }
  destruct (activate_keeps_only_the_current_cache WorkerExamples.upgraded H)
    as (Hcur & _ & Hmatch & _).
  split; [exact H|]. split; [reflexivity|]. split; [|exact Hcur].
  rewrite Hmatch. reflexivity.
Defined.

(** *** [install] *)

Lemma fetched_asset_Some (loc : location) (net : string -> option response) (p : string)
    (x : request * response) :
  fetched_asset loc net p = Some x <->
  net (origin loc +:+ p) = Some (snd x) /\ ok (snd x) = true /\
  storable loc (asset_request loc p) (snd x) = true /\ fst x = asset_request loc p.
Proof.
  unfold fetched_asset. destruct (net (origin loc +:+ p)) as [r|].
  - destruct (ok r) eqn:Hok; cbn [andb].
    + destruct (storable loc (asset_request loc p) r) eqn:Hst; split.
      * intros [= <-]. auto.
      * intros (Hr & _ & _ & Hx). destruct x as [q r']. cbn in *. congruence.
      * discriminate.
      * intros ([= ->] & _ & H & _). congruence.
    + split; [discriminate|]. intros ([= ->] & H & _). congruence.
  - split; [discriminate|]. intros (H & _). discriminate.
Qed.

Lemma fetch_all_Some (loc : location) (net : string -> option response) (paths : list string)
    (l : list (request * response)) :
  fetch_all loc net paths = Some l ->
  (forall p, In p paths -> exists x, In x l /\ fetched_asset loc net p = Some x) /\
  (forall x, In x l -> net (url (fst x)) = Some (snd x)).
Proof.
  revert l. induction paths as [|p paths IH]; intros l; cbn [fetch_all].
  - intros [= <-]. split; intros ? [].
  - destruct (fetched_asset loc net p) as [x|] eqn:Hx; [|discriminate].
    destruct (fetch_all loc net paths) as [l'|]; [|discriminate].
    intros [= <-]. destruct (IH l' eq_refl) as [H1 H2]. split.
    + intros q [<-|Hq].
      * exists x. split; [left; reflexivity|exact Hx].
      * destruct (H1 q Hq) as (y & Hy & Hf). exists y. split; [right; exact Hy|exact Hf].
    + intros y [<-|Hy]; [|apply H2, Hy].
      apply fetched_asset_Some in Hx as (Hn & _ & _ & ->). exact Hn.
Qed.

Lemma fetch_all_None (loc : location) (net : string -> option response) (paths : list string) :
  fetch_all loc net paths = None ->
  exists p, In p paths /\ fetched_asset loc net p = None.
Proof.
  induction paths as [|p paths IH]; cbn [fetch_all]; [discriminate|].
  destruct (fetched_asset loc net p) as [x|] eqn:Hx.
  - destruct (fetch_all loc net paths); [discriminate|].
    intros _. destruct (IH eq_refl) as (q & Hq & Hf). exists q. split; [right|]; assumption.
  - intros _. exists p. split; [left; reflexivity|exact Hx].
Qed.

Lemma find_cache_put_in (name u : string) (r : response) (st : storage) :
  find_cache name (put_in name u r st) = (fun c => <[u := r]> c) <$> find_cache name st.
Proof.
  induction st as [|[n c] st IH]; [reflexivity|]. cbn [put_in find_cache].
  destruct (String.eqb n name) eqn:Hn; cbn [find_cache]; rewrite Hn; [reflexivity|exact IH].
Qed.

Lemma find_cache_put_all (name : string) (l : list (request * response)) (st : storage) :
  find_cache name (put_all name l st) =
    (fun c => fold_left (fun acc x => <[url (fst x) := snd x]> acc) l c) <$> find_cache name st.
Proof.
  unfold put_all. revert st. induction l as [|x l IH]; intros st; cbn [fold_left].
  - destruct (find_cache name st); reflexivity.
  - rewrite IH, find_cache_put_in. destruct (find_cache name st); reflexivity.
Qed.

Lemma keys_put_all (name : string) (l : list (request * response)) (st : storage) :
  caches_keys (put_all name l st) = caches_keys st.
Proof.
  unfold put_all. revert st. induction l as [|x l IH]; intros st; [reflexivity|].
  cbn [fold_left]. rewrite IH. apply keys_put_in.
Qed.

Lemma lookup_put_all (net : string -> option response) (l : list (request * response)) :
  (forall y, In y l -> net (url (fst y)) = Some (snd y)) ->
  forall (u : string) (c : gmap string response),
    fold_left (fun acc y => <[url (fst y) := snd y]> acc) l c !! u =
      if existsb (String.eqb u) (map (fun y => url (fst y)) l) then net u else c !! u.
Proof.
  induction l as [|y l IH]; intros Hnet u c; [reflexivity|].
  cbn [fold_left map existsb]. rewrite IH by (intros z Hz; apply Hnet; right; exact Hz).
  destruct (existsb (String.eqb u) (map (fun y => url (fst y)) l));
    [rewrite orb_true_r; reflexivity|]. rewrite orb_false_r.
  destruct (String.eqb_spec u (url (fst y))) as [->|Hne].
  - rewrite lookup_insert_eq. symmetry. apply Hnet. left. reflexivity.
  - apply lookup_insert_ne. congruence.
Qed.

Lemma find_cache_app_new (name : string) (st : storage) :
  find_cache name st = None -> find_cache name (st ++ [(name, ∅)]) = Some ∅.
Proof.
  induction st as [|[n c] st IH]; cbn [app find_cache].
  - rewrite String.eqb_refl. reflexivity.
  - destruct (String.eqb n name); [discriminate|exact IH].
Qed.

Lemma caches_open_spec (name : string) (st : storage) :
  find_cache name (caches_open name st) = Some (default ∅ (find_cache name st)) /\
  (well_formed st -> well_formed (caches_open name st)).
Proof.
  unfold caches_open, well_formed. destruct (find_cache name st) as [c|] eqn:Hf.
  - rewrite Hf. auto.
  - split; [apply find_cache_app_new, Hf|].
    intros Hnd. unfold caches_keys. rewrite map_app. cbn [map fst].
    apply NoDup_app. split; [exact Hnd|]. split; [|apply NoDup_singleton].
    intros x Hx Hx'. apply list_elem_of_singleton in Hx'. subst x.
    apply find_cache_None in Hf. apply Hf, list_elem_of_In, Hx.
Qed.

(** X17. Installation precaches all or nothing: it succeeds exactly when
    every static asset is fetched with an ok, storable response, and a
    failed one stores no asset at all (it only makes sure the cache
    exists).  After a successful installation and the activation that
    follows, every static asset is answered from the cache with the
    response it was installed with. *)
Theorem install_precaches_all_or_nothing
    (loc : location) (net : string -> option response) (st : storage) :
  let installed := fst (fst (on_install loc net st)) in
  let st' := snd (fst (on_install loc net st)) in
  (installed = true <->
     forall p, In p STATIC_ASSETS ->
       exists r, net (origin loc +:+ p) = Some r /\ ok r = true /\
                 storable loc (asset_request loc p) r = true) /\
  (installed = false -> st' = caches_open CACHE_NAME st) /\
  (installed = true -> well_formed st ->
     forall p, In p STATIC_ASSETS ->
       caches_match (asset_request loc p) (fst (on_activate st')) = net (origin loc +:+ p)).
Proof.
  unfold on_install. destruct (fetch_all loc net STATIC_ASSETS) as [l|] eqn:Hall;
    cbn [fst snd]; (split; [|split]).
  - split; [|reflexivity]. intros _ p Hp.
    destruct (fetch_all_Some _ _ _ _ Hall) as [H1 _].
    destruct (H1 p Hp) as (x & _ & Hx). apply fetched_asset_Some in Hx as (Hn & Hok & Hs & _).
    exists (snd x). auto.
  - discriminate.
  - intros _ Hwf p Hp.
    destruct (fetch_all_Some _ _ _ _ Hall) as [H1 H2].
    destruct (H1 p Hp) as (x & Hx & Hf). apply fetched_asset_Some in Hf as (Hn & _ & _ & Hreq).
    destruct (caches_open_spec CACHE_NAME st) as [Hopen Hwf'].
    assert (Hwf2 : well_formed (put_all CACHE_NAME l (caches_open CACHE_NAME st))).
    { unfold well_formed. rewrite keys_put_all. apply Hwf', Hwf. }
    destruct (activate_keeps_only_the_current_cache _ Hwf2) as (_ & _ & Hmatch & _).
    rewrite Hmatch, find_cache_put_all, Hopen. cbn [asset_request method fmap option_fmap option_map].
    change (String.eqb "GET" "GET") with true. cbv iota.
    rewrite (lookup_put_all net l H2). cbn [url].
    replace (existsb _ _) with true; [reflexivity|].
    symmetry. apply existsb_exists. exists (url (fst x)). split.
    + apply in_map_iff. exists x. auto.
    + rewrite Hreq. cbn [asset_request url]. apply String.eqb_refl.
  - split; [discriminate|]. intros Hall'.
    destruct (fetch_all_None _ _ _ Hall) as (p & Hp & Hf).
    destruct (Hall' p Hp) as (r & Hn & Hok & Hs).
    assert (fetched_asset loc net p = Some (asset_request loc p, r)); [|congruence].
    apply fetched_asset_Some. auto.
  - reflexivity.
  - discriminate.
Qed.

Lemma install_precaches_all_or_nothing_witness :
  fst (fst (on_install WorkerExamples.site (fun u => Some (WorkerExamples.page u))
              WorkerExamples.upgraded)) = true /\
  well_formed WorkerExamples.upgraded /\
  In "/static/tasks.html" STATIC_ASSETS /\
  caches_match WorkerExamples.tasks_page
    (fst (on_activate
       (snd (fst (on_install WorkerExamples.site (fun u => Some (WorkerExamples.page u))
                    WorkerExamples.upgraded)))))
    = Some (WorkerExamples.page "https://status.wisteriazy.moe/static/tasks.html").
Proof.
  assert (Hwf : well_formed WorkerExamples.upgraded).
  { apply (bool_decide_unpack _). vm_compute. exact I. }
  assert (Hin : In "/static/tasks.html" STATIC_ASSETS)
    by (right; right; right; left; reflexivity).
  split; [reflexivity|]. split; [exact Hwf|]. split; [exact Hin|].
  exact (proj2 (proj2 (install_precaches_all_or_nothing WorkerExamples.site
                         (fun u => Some (WorkerExamples.page u)) WorkerExamples.upgraded))
           eq_refl Hwf _ Hin).
Defined.

End ServiceWorkerFacts.
